(** * libparistraceroute: the traceroute algorithm instance and the probe tags

    A shallow embedding of [algorithms/traceroute.c] (the event handler of
    the traceroute algorithm) and of the tag allocation of the network
    layer declared in [network.h], together with the properties the
    specification states about them. *)

From Stdlib Require Import ZArith Lia Bool List.
From stdpp Require Import base gmap list strings.

Local Open Scope Z_scope.

(** ** C integers *)

(** An unsigned integer type of [bits] bits: every store reduces the value
    modulo [2 ^ bits]. *)
Definition wrap (bits : positive) (x : Z) : Z := x mod 2 ^ Z.pos bits.

(** Conversion to [uint8_t], the type of the [ttl] parameter of
    [send_traceroute_probe]. *)
Definition to_uint8 (x : Z) : Z := wrap 8 x.

(** [errno.h] *)
Definition EINVAL : Z := 22.
Definition ENOMEM : Z := 12.

(** ** Fields, events and the loop (probe.h, event.h, pt_loop.h) *)

(** The value of a field is a union; the handler writes an 8-bit integer
    ([I8]) and reads a string ([value.string]). *)
Inductive value_t : Type :=
| VInt8 (i : Z)
| VString (s : string).

Record field_t : Type := { key : string; value : value_t }.

(** The macro [I8(key, value)]. *)
Definition I8 (k : string) (v : Z) : field_t := {| key := k; value := VInt8 v |}.

Inductive event_type_t : Type :=
| ALGORITHM_INIT
| ALGORITHM_TERMINATED
| ALGORITHM_ERROR
| PROBE_REPLY
| PROBE_TIMEOUT
| PROBE_SEND_FAILED
| TRACEROUTE_DESTINATION_REACHED
| TRACEROUTE_PROBE_REPLY
| TRACEROUTE_MAX_TTL_REACHED.

(** Handles of algorithm instances ([loop->cur_instance->caller]). *)
Abbreviation instance_t := nat (only parsing).

(** Addresses of heap blocks; [None] is the NULL pointer. *)
Abbreviation loc := positive (only parsing).

(** ** The state and the options of a traceroute instance *)

(** Modelled from the spec: [traceroute.h] is not among the sources.  The
    spec (4.8) lists the fields of the state, [ttl], [num_sent_probes],
    [num_stars], [num_undiscovered] and the [destination_reached] flag, and
    of the options, [min_ttl], [max_ttl], [num_probes] and [dst_ip].  The
    integer fields are unsigned; their widths are parameters of the
    handler below. *)
Record traceroute_data_t : Type := {
  destination_reached : bool;
  ttl : Z;
  num_sent_probes : Z;
  num_stars : Z;
  num_undiscovered : Z
}.

Record traceroute_options_t : Type := {
  min_ttl : Z;
  max_ttl : Z;
  num_probes : Z;
  dst_ip : option string
}.

Definition traceroute_get_default_options : traceroute_options_t :=
  {| min_ttl := 1; max_ttl := 30; num_probes := 3; dst_ip := None |}.

(** [memset(data, 0, sizeof(traceroute_data_t))] *)
Definition zero_data : traceroute_data_t :=
  {| destination_reached := false; ttl := 0; num_sent_probes := 0;
     num_stars := 0; num_undiscovered := 0 |}.

Definition set_destination_reached (b : bool) (d : traceroute_data_t) :=
  {| destination_reached := b; ttl := ttl d;
     num_sent_probes := num_sent_probes d; num_stars := num_stars d;
     num_undiscovered := num_undiscovered d |}.

Definition set_ttl (v : Z) (d : traceroute_data_t) :=
  {| destination_reached := destination_reached d; ttl := v;
     num_sent_probes := num_sent_probes d; num_stars := num_stars d;
     num_undiscovered := num_undiscovered d |}.

Definition set_num_sent_probes (v : Z) (d : traceroute_data_t) :=
  {| destination_reached := destination_reached d; ttl := ttl d;
     num_sent_probes := v; num_stars := num_stars d;
     num_undiscovered := num_undiscovered d |}.

Definition set_num_stars (v : Z) (d : traceroute_data_t) :=
  {| destination_reached := destination_reached d; ttl := ttl d;
     num_sent_probes := num_sent_probes d; num_stars := v;
     num_undiscovered := num_undiscovered d |}.

Definition set_num_undiscovered (v : Z) (d : traceroute_data_t) :=
  {| destination_reached := destination_reached d; ttl := ttl d;
     num_sent_probes := num_sent_probes d; num_stars := num_stars d;
     num_undiscovered := v |}.

(** ** The handler *)

Section Handler.

(** The probe layer ([probe.h]) is used through two functions only.
    [probe_set_fields p f] returns the status (0 on success) and the probe
    as it has been left; [probe_get_field p k] is NULL ([None]) when the
    probe has no such field. *)
Context {probe_t : Type}.
Variable probe_set_fields : probe_t -> field_t -> Z * probe_t.
Variable probe_get_field : probe_t -> string -> option field_t.

(** Widths of the type of [data->ttl] and of the type of the counters. *)
Variable ttl_bits : positive.
Variable size_bits : positive.

(** Whether [malloc] returns NULL on a given heap. *)
Variable malloc_fails : gmap loc traceroute_data_t -> bool.

(** [probe_reply_t]: the probe and the reply matched to it. *)
Record probe_reply_t : Type := { probe : probe_t; reply : probe_t }.

(** [event->data]: nothing, a probe, or a probe with its reply. *)
Inductive event_data_t : Type :=
| NoData
| ProbeData (p : probe_t)
| ReplyData (pr : probe_reply_t).

Record event_t : Type := {
  type : event_type_t;
  data : event_data_t;
  target : instance_t
}.

Definition event_create (t : event_type_t) (d : event_data_t)
  (tgt : instance_t) : event_t :=
  {| type := t; data := d; target := tgt |}.

(** The loop as the handler sees it: the caller of the current instance,
    the probes handed to [pt_send_probe], oldest first, and the events
    handed to [pt_algorithm_throw] with their recipient, oldest first. *)
Record pt_loop_t : Type := {
  cur_instance_caller : instance_t;
  sendq : list probe_t;
  thrown : list (instance_t * event_t)
}.

(** Everything the handler reads or writes: the heap, the slot [*pdata],
    [errno], the loop and the probe skeleton. *)
Record world : Type := {
  mem : gmap loc traceroute_data_t;
  pdata : option loc;
  errno : Z;
  loop : pt_loop_t;
  probe_skel : probe_t
}.

Definition set_mem (m : gmap loc traceroute_data_t) (w : world) : world :=
  {| mem := m; pdata := pdata w; errno := errno w; loop := loop w;
     probe_skel := probe_skel w |}.

Definition set_pdata (p : option loc) (w : world) : world :=
  {| mem := mem w; pdata := p; errno := errno w; loop := loop w;
     probe_skel := probe_skel w |}.

Definition set_errno (e : Z) (w : world) : world :=
  {| mem := mem w; pdata := pdata w; errno := e; loop := loop w;
     probe_skel := probe_skel w |}.

Definition set_loop (l : pt_loop_t) (w : world) : world :=
  {| mem := mem w; pdata := pdata w; errno := errno w; loop := l;
     probe_skel := probe_skel w |}.

Definition set_probe_skel (p : probe_t) (w : world) : world :=
  {| mem := mem w; pdata := pdata w; errno := errno w; loop := loop w;
     probe_skel := p |}.

(** Writing the fields of the block [l]. *)
Definition store (l : loc) (d : traceroute_data_t) (w : world) : world :=
  set_mem (<[l := d]> (mem w)) w.

(** [malloc]: NULL with [errno = ENOMEM], or a block that is not in use. *)
Definition malloc (w : world) : option loc * world :=
  if malloc_fails (mem w) then (None, set_errno ENOMEM w)
  else (Some (fresh (dom (mem w))), w).

(** [free]: nothing happens on NULL. *)
Definition free (p : option loc) (w : world) : world :=
  match p with
  | None => w
  | Some l => set_mem (delete l (mem w)) w
  end.

Definition pt_send_probe (w : world) (p : probe_t) : world :=
  set_loop {| cur_instance_caller := cur_instance_caller (loop w);
              sendq := sendq (loop w) ++ [p];
              thrown := thrown (loop w) |} w.

Definition pt_algorithm_throw (w : world) (i : instance_t) (e : event_t)
  : world :=
  set_loop {| cur_instance_caller := cur_instance_caller (loop w);
              sendq := sendq (loop w);
              thrown := thrown (loop w) ++ [(i, e)] |} w.

(** The result of a call: the value returned and the world it leaves, or
    undefined behaviour (a NULL or dangling pointer is dereferenced, or
    the divisor of [%] is zero). *)
Inductive outcome : Type :=
| Returns (ret : Z) (w : world)
| Undefined.

(** [destination_reached(dst_ip, reply)]: the field [destination_reached]
    of the state has the same name in the source; [None] when [strcmp]
    would read through NULL or through an integer. *)
Definition destination_reached_check (dst : option string) (r : probe_t)
  : option bool :=
  match probe_get_field r "src_ip", dst with
  | Some {| value := VString s |}, Some d => Some (String.eqb s d)
  | _, _ => None
  end.

Definition send_traceroute_probe (w : world) (ttl : Z) : bool * world :=
  let ttl := to_uint8 ttl in
  let '(rc, skel) := probe_set_fields (probe_skel w) (I8 "ttl" ttl) in
  let w := set_probe_skel skel w in
  if rc =? 0 then (true, pt_send_probe w skel) else (false, w).

(** The label [FAILURE]. *)
Definition FAILURE (w : world) : outcome := Returns EINVAL w.

(** The block "Send next probe packet", which the source has twice
    (lines 159-171 and 194-206).  [d] is the content of [*data], written
    back to the block [l] when the handler leaves. *)
Definition send_next_probe (event : event_t) (options : traceroute_options_t)
  (l : loc) (d : traceroute_data_t) (w : world) : outcome :=
  let caller := cur_instance_caller (loop w) in
  if ttl d >? max_ttl options then
    Returns 0 (store l d
      (pt_algorithm_throw w caller
         (event_create TRACEROUTE_MAX_TTL_REACHED (data event) caller)))
  else
    let '(ok, w) := send_traceroute_probe w (ttl d) in
    if ok then
      Returns 0
        (store l (set_num_sent_probes (wrap size_bits (num_sent_probes d + 1)) d) w)
    else FAILURE (store l d w).

Definition traceroute_handler (event : event_t)
  (opts : option traceroute_options_t) (w : world) : outcome :=
  let data_ : option loc := None in
  match type event with
  | ALGORITHM_INIT =>
      match opts with
      | None => FAILURE (set_errno EINVAL w)
      | Some options =>
          if min_ttl options >=? max_ttl options then
            FAILURE (set_errno EINVAL w)
          else
            match malloc w with
            | (None, w) => FAILURE w
            | (Some l, w) =>
                let d := zero_data in
                let d := set_ttl (wrap ttl_bits (min_ttl options)) d in
                let w := store l d w in
                let '(ok, w) := send_traceroute_probe w (ttl d) in
                if ok then
                  let d :=
                    set_num_sent_probes (wrap size_bits (num_sent_probes d + 1)) d in
                  Returns 0 (set_pdata (Some l) (store l d w))
                else FAILURE w
            end
      end
  | PROBE_REPLY =>
      match pdata w with
      | None => Undefined
      | Some l =>
      match mem w !! l, data event, opts with
      | Some d, ReplyData pr, Some options =>
          let d := set_num_stars 0 d in
          let d := set_num_undiscovered 0 d in
          if num_probes options =? 0 then Undefined else
          let i := Z.rem (num_sent_probes d) (num_probes options) in
          match destination_reached_check (dst_ip options) (reply pr) with
          | None => Undefined
          | Some b =>
              let d := set_destination_reached (destination_reached d || b) d in
              let caller := cur_instance_caller (loop w) in
              let w := pt_algorithm_throw w caller
                         (event_create TRACEROUTE_PROBE_REPLY (data event) caller) in
              if i =? 0 then
                if destination_reached d then
                  Returns 0 (store l d
                    (pt_algorithm_throw w caller
                       (event_create TRACEROUTE_DESTINATION_REACHED
                          (data event) caller)))
                else
                  let d := set_ttl (wrap ttl_bits (ttl d + 1)) d in
                  send_next_probe event options l d w
              else send_next_probe event options l d w
          end
      | _, _, _ => Undefined
      end
      end
  | PROBE_TIMEOUT =>
      match pdata w with
      | None => Undefined
      | Some l =>
      match mem w !! l, opts with
      | Some d, Some options =>
          if num_probes options =? 0 then Undefined else
          let i := Z.rem (num_sent_probes d) (num_probes options) in
          let d := set_num_stars (wrap size_bits (num_stars d + 1)) d in
          if i =? 0 then
            let d :=
              if num_stars d =? num_probes options
              then set_num_undiscovered (wrap size_bits (num_undiscovered d + 1)) d
              else d in
            if num_undiscovered d =? 3 then Returns 0 (store l d w)
            else
              let d := set_ttl (wrap ttl_bits (ttl d + 1)) d in
              send_next_probe event options l d w
          else send_next_probe event options l d w
      | _, _ => Undefined
      end
      end
  | ALGORITHM_TERMINATED =>
      let w := match pdata w with Some _ => free data_ w | None => w end in
      Returns 0 (set_pdata None w)
  | _ => FAILURE w
  end.

(** The state of lines 129-135: the two counters are reset and the reply
    is checked against the destination ([b]). *)
Definition replied (b : bool) (d : traceroute_data_t) : traceroute_data_t :=
  set_destination_reached (destination_reached d || b)
    (set_num_undiscovered 0 (set_num_stars 0 d)).

(** The state of line 178, the timeout counted, and of lines 183-185, the
    hop closed. *)
Definition starred (d : traceroute_data_t) : traceroute_data_t :=
  set_num_stars (wrap size_bits (num_stars d + 1)) d.

Definition hop_closed (options : traceroute_options_t) (d : traceroute_data_t)
  : traceroute_data_t :=
  if num_stars (starred d) =? num_probes options
  then set_num_undiscovered (wrap size_bits (num_undiscovered d + 1)) (starred d)
  else starred d.

(** The event a reply is forwarded as, and nothing for the other events. *)
Definition forwarded (event : event_t) (w : world)
  : list (instance_t * event_t) :=
  let caller := cur_instance_caller (loop w) in
  match type event with
  | PROBE_REPLY =>
      [(caller, event_create TRACEROUTE_PROBE_REPLY (data event) caller)]
  | _ => []
  end.

(** The probes that successive calls of [send_traceroute_probe] queue when
    they are given the ttls of a list in turn and [probe_set_fields]
    succeeds: each call sets the ttl of the skeleton as the call before
    has left it. *)
Fixpoint sent_with (skel : probe_t) (ttls : list Z) : list probe_t :=
  match ttls with
  | [] => []
  | t :: ttls =>
      let skel := snd (probe_set_fields skel (I8 "ttl" (to_uint8 t))) in
      skel :: sent_with skel ttls
  end.

(** The ttls of the [n] probes that follow the first one, when the first
    one has ttl [t] and every ttl gets [np] probes: the [j]-th of them has
    ttl [t + j / np]. *)
Definition hop_ttls (t np : Z) (n : nat) : list Z :=
  map (fun j => t + Z.of_nat j / np) (seq 1 n).

(** [i == 0]: [num_probes] probes have been sent for the current hop.
    [d] is the state the handler finds. *)
Definition hop_boundary (d : traceroute_data_t) (options : traceroute_options_t)
  : bool :=
  Z.rem (num_sent_probes d) (num_probes options) =? 0.

(** The two [break]s that leave the handler before the next probe: on a
    reply when the destination is reached, on a timeout when three hops
    in a row are undiscovered.  [d] is the state the handler finds and
    [d'] the state it leaves. *)
Definition stops (t : event_type_t) (options : traceroute_options_t)
  (d d' : traceroute_data_t) : bool :=
  hop_boundary d options &&
  match t with
  | PROBE_REPLY => destination_reached d'
  | PROBE_TIMEOUT => num_undiscovered d' =? 3
  | _ => false
  end.

(** On [PROBE_REPLY] the handler reads the reply of the event and the
    destination of the options. *)
Definition readable (options : traceroute_options_t) (event : event_t) : Prop :=
  match type event, data event with
  | PROBE_REPLY, ReplyData pr =>
      is_Some (destination_reached_check (dst_ip options) (reply pr))
  | PROBE_REPLY, _ => False
  | _, _ => True
  end.

(** Delivering the events of a list one after the other, whatever each
    call returns; [None] once a call has undefined behaviour. *)
Fixpoint deliver (events : list event_t) (opts : option traceroute_options_t)
  (w : world) : option world :=
  match events with
  | [] => Some w
  | e :: events =>
      match traceroute_handler e opts w with
      | Returns _ w => deliver events opts w
      | Undefined => None
      end
  end.

End Handler.

(** ** A probe layer to run the handler on *)

(** Modelled from the spec: [probe.c] is not among the sources.  The spec
    (3, Probe) has a probe carry a typed field map; here a probe is the
    list of its fields, a field can be set when the probe has it, and
    setting any other field fails with status -1. *)
Module SimpleProbe.

Fixpoint probe_get_field (p : list field_t) (k : string) : option field_t :=
  match p with
  | [] => None
  | f :: p => if String.eqb (key f) k then Some f else probe_get_field p k
  end.

Fixpoint replace_field (p : list field_t) (f : field_t)
  : option (list field_t) :=
  match p with
  | [] => None
  | g :: p =>
      if String.eqb (key g) (key f) then Some (f :: p)
      else option_map (cons g) (replace_field p f)
  end.

Definition probe_set_fields (p : list field_t) (f : field_t)
  : Z * list field_t :=
  match replace_field p f with
  | Some p' => (0, p')
  | None => (-1, p)
  end.

(** A probe layer in which every field can be set: a field the probe
    does not have yet is added to it. *)
Definition probe_set_fields_total (p : list field_t) (f : field_t)
  : Z * list field_t :=
  match replace_field p f with
  | Some p' => (0, p')
  | None => (0, p ++ [f])
  end.

(** A probe layer in which no field can ever be set. *)
Definition probe_set_fields_failing (p : list field_t) (f : field_t)
  : Z * list field_t := (-1, p).

Definition malloc_succeeds (_ : gmap loc traceroute_data_t) : bool := false.
Definition malloc_exhausted (_ : gmap loc traceroute_data_t) : bool := true.

(** The handler on a machine with an 8-bit [ttl] and 64-bit counters. *)
Definition handler :=
  traceroute_handler probe_set_fields probe_get_field 8 64 malloc_succeeds.

Definition run :=
  deliver probe_set_fields probe_get_field 8 64 malloc_succeeds.

(** The probe skeleton and the events of the scenarios of the spec (8). *)
Definition skeleton : list field_t := [I8 "ttl" 0].

Definition answer (ip : string) : list field_t :=
  [{| key := "src_ip"; value := VString ip |}; I8 "ttl" 64].

Definition init : @event_t (list field_t) := event_create ALGORITHM_INIT NoData 1%nat.

Definition reply_from (ip : string) : @event_t (list field_t) :=
  event_create PROBE_REPLY
    (ReplyData {| probe := skeleton; reply := answer ip |}) 1%nat.

Definition timeout : @event_t (list field_t) :=
  event_create PROBE_TIMEOUT (ProbeData skeleton) 1%nat.

Definition terminated : @event_t (list field_t) :=
  event_create ALGORITHM_TERMINATED NoData 1%nat.

(** Before [ALGORITHM_INIT]: an empty heap, [*pdata == NULL], nothing sent
    and nothing thrown; the caller is instance 0. *)
Definition boot : @world (list field_t) :=
  {| mem := ∅; pdata := None; errno := 0;
     loop := {| cur_instance_caller := 0%nat; sendq := []; thrown := [] |};
     probe_skel := skeleton |}.

Definition options (lo hi n : Z) (dst : string) : traceroute_options_t :=
  {| min_ttl := lo; max_ttl := hi; num_probes := n; dst_ip := Some dst |}.

(** Scenario 1 of the spec (8): [min_ttl = 1], [max_ttl = 5], one probe
    per hop, and the five hops answer in order, the target last. *)
Definition happy_path : list (@event_t (list field_t)) :=
  [init; reply_from "10.0.0.1"; reply_from "10.0.0.2"; reply_from "10.0.0.3";
   reply_from "10.0.0.4"; reply_from "10.0.0.5"].

(** Scenario 2 of the spec (8) starts in the same way, and the hop at
    ttl 5 does not answer. *)
Definition four_hops : list (@event_t (list field_t)) :=
  [init; reply_from "10.0.0.1"; reply_from "10.0.0.2"; reply_from "10.0.0.3";
   reply_from "10.0.0.4"].

(** Scenario 3 of the spec (8): three probes per hop, the hops at ttl 1
    and 2 answer, and after that every probe times out. *)
Definition gap (timeouts : nat) : list (@event_t (list field_t)) :=
  init :: repeat (reply_from "10.0.0.1") 3 ++ repeat (reply_from "10.0.0.2") 3
       ++ repeat timeout timeouts.

(** The world the events leave, from [boot]. *)
Definition after (events : list (@event_t (list field_t)))
  (o : traceroute_options_t) : @world (list field_t) :=
  match run events (Some o) boot with
  | Some w => w
  | None => boot
  end.

(** What an observer of the loop sees of a world: the ttl of each probe
    sent and the type of each event thrown. *)
Definition sent_ttls (w : @world (list field_t)) : list (option field_t) :=
  map (fun p => probe_get_field p "ttl") (sendq (loop w)).

Definition thrown_types (w : @world (list field_t))
  : list event_type_t :=
  map (fun ie => type (snd ie)) (thrown (loop w)).

End SimpleProbe.

(** ** The network layer: probe tags and the probes in transit *)

Module Network.

(** A probe in transit: its tag, the fingerprint a reply must echo, and
    the time at which it times out. *)
Record probe_t : Type := { tag : Z; fingerprint : Z; deadline : Z }.

(** [network_t] (network.h), of which the probes in transit, from the
    oldest one to the youngest one, and the last probe ID used. *)
Record network_t : Type := { probes : list probe_t; last_tag : Z }.

(** The largest value of [uintmax_t], the type of [last_tag]. *)
Definition UINTMAX_MAX : Z := 2 ^ 64 - 1.

Definition network_create : network_t := {| probes := []; last_tag := 0 |}.

(** Modelled from the spec: [network.c] is not among the sources, which
    only declare [network_get_available_tag].  The spec (4.6, Tag
    allocation) makes the tag the next value of a monotonic 64-bit counter
    and the exhaustion of the counter a fatal engine error ([None]). *)
Definition network_get_available_tag (n : network_t)
  : option (Z * network_t) :=
  if last_tag n <? UINTMAX_MAX then
    Some (last_tag n + 1,
          {| probes := probes n; last_tag := last_tag n + 1 |})
  else None.

(** Modelled from the spec: [transmit] (4.6) for one probe of the send
    queue, at time [now] and with the timeout of the engine.  The probe
    gets a fresh tag and its deadline and joins the probes in transit;
    when the socket fails to send ([sent = false]) it is taken out again. *)
Definition transmit (timeout now fp : Z) (sent : bool) (n : network_t)
  : option network_t :=
  match network_get_available_tag n with
  | None => None
  | Some (t, n) =>
      let p := {| tag := t; fingerprint := fp; deadline := now + timeout |} in
      let n' := {| probes := probes n ++ [p]; last_tag := last_tag n |} in
      if sent then Some n'
      else Some {| probes := filter (fun q => tag q ≠ t) (probes n');
                   last_tag := last_tag n' |}
  end.

(** Modelled from the spec: [match_reply] (4.6) takes the oldest probe
    whose fingerprint the reply echoes out of the probes in transit. *)
Fixpoint remove_first (fp : Z) (l : list probe_t) : list probe_t :=
  match l with
  | [] => []
  | p :: l => if fingerprint p =? fp then l else p :: remove_first fp l
  end.

Definition match_reply (fp : Z) (n : network_t) : network_t :=
  {| probes := remove_first fp (probes n); last_tag := last_tag n |}.

(** Modelled from the spec: [expire_oldest] (4.6) takes the probes whose
    deadline has passed, which are the oldest ones, out of the probes in
    transit. *)
Fixpoint drop_expired (now : Z) (l : list probe_t) : list probe_t :=
  match l with
  | [] => []
  | p :: l' => if deadline p <=? now then drop_expired now l' else l
  end.

Definition expire_oldest (now : Z) (n : network_t) : network_t :=
  {| probes := drop_expired now (probes n); last_tag := last_tag n |}.

(** The states of the engine: those [network_create] and the three
    operations lead to. *)
Inductive reachable : network_t -> Prop :=
| reachable_create : reachable network_create
| reachable_transmit timeout now fp sent n n' :
    reachable n -> transmit timeout now fp sent n = Some n' -> reachable n'
| reachable_match fp n : reachable n -> reachable (match_reply fp n)
| reachable_expire now n : reachable n -> reachable (expire_oldest now n).

(** The tags of the probes in transit. *)
Definition tags (n : network_t) : list Z := tag <$> probes n.

(** What holds in every state of the engine: the tags in transit are
    pairwise distinct, each has been drawn from the counter, and the
    counter fits in 64 bits. *)
Definition tags_drawn (n : network_t) : Prop :=
  NoDup (tags n) /\
  (forall t, t ∈ tags n -> 1 <= t <= last_tag n) /\
  0 <= last_tag n <= UINTMAX_MAX.

(** A run from [network_create]: some probes are sent, the second is
    answered, and the oldest ones time out. *)
Definition busy : option network_t :=
  n ← transmit 3 0 11 true network_create;
  n ← transmit 3 1 12 true n;
  n ← transmit 3 2 13 false n;
  n ← transmit 3 2 14 true (match_reply 12 n);
  Some (expire_oldest 4 n).

End Network.

(** * Properties *)

(** ** Arithmetic of the integer types *)

Lemma wrap_small (bits : positive) (x : Z) :
  0 <= x < 2 ^ Z.pos bits -> wrap bits x = x.
Proof. intros H. unfold wrap. now apply Z.mod_small. Qed.

Lemma wrap_one (bits : positive) : wrap bits 1 = 1.
Proof.
  apply wrap_small. split; [lia|].
  change 1 with (2 ^ 0) at 1. apply Z.pow_lt_mono_r; lia.
Qed.

Lemma wrap_range (bits : positive) (x : Z) : 0 <= wrap bits x < 2 ^ Z.pos bits.
Proof. unfold wrap. apply Z.mod_pos_bound. apply Z.pow_pos_nonneg; lia. Qed.

Lemma to_uint8_small (x : Z) : 0 <= x <= 255 -> to_uint8 x = x.
Proof. intros H. apply wrap_small. change (2 ^ Z.pos 8) with 256. lia. Qed.

Lemma app_one_neq {A : Type} (l : list A) (x : A) : l ++ [x] <> l.
Proof.
  intros H. apply (f_equal (@length A)) in H.
  rewrite length_app in H. simpl in H. lia.
Qed.


(** ** The traceroute handler *)

Section HandlerFacts.

Context {probe_t : Type}.
Variable probe_set_fields : probe_t -> field_t -> Z * probe_t.
Variable probe_get_field : probe_t -> string -> option field_t.
Variable ttl_bits : positive.
Variable size_bits : positive.
Variable malloc_fails : gmap loc traceroute_data_t -> bool.

#[local] Abbreviation handler :=
  (traceroute_handler probe_set_fields probe_get_field ttl_bits size_bits
     malloc_fails).
#[local] Abbreviation next_probe :=
  (send_next_probe probe_set_fields size_bits).
#[local] Abbreviation send_probe := (send_traceroute_probe probe_set_fields).
#[local] Abbreviation run :=
  (deliver probe_set_fields probe_get_field ttl_bits size_bits malloc_fails).

Implicit Types (w : @world probe_t) (event : @event_t probe_t).
Implicit Types (d : traceroute_data_t) (o : traceroute_options_t).

(** *** Sending a probe *)

Lemma send_probe_ok w t skel :
  probe_set_fields (probe_skel w) (I8 "ttl" (to_uint8 t)) = (0, skel) ->
  send_probe w t = (true, pt_send_probe (set_probe_skel skel w) skel).
Proof. intros H. unfold send_traceroute_probe. now rewrite H. Qed.

Lemma send_probe_ko w t rc skel :
  probe_set_fields (probe_skel w) (I8 "ttl" (to_uint8 t)) = (rc, skel) ->
  rc <> 0 ->
  send_probe w t = (false, set_probe_skel skel w).
Proof.
  intros H Hrc. unfold send_traceroute_probe. rewrite H.
  destruct (Z.eqb_spec rc 0); [contradiction | reflexivity].
Qed.

(** Sending touches neither the heap, nor the slot, nor the events. *)
Lemma send_probe_frame w t :
  let w' := snd (send_probe w t) in
  mem w' = mem w /\ pdata w' = pdata w /\ errno w' = errno w /\
  thrown (loop w') = thrown (loop w) /\
  cur_instance_caller (loop w') = cur_instance_caller (loop w).
Proof.
  unfold send_traceroute_probe.
  destruct (probe_set_fields _ _) as [rc skel].
  destruct (rc =? 0); simpl; auto.
Qed.

(** *** ALGORITHM_INIT *)

(** C2. Whenever the options are missing or [min_ttl >= max_ttl],
    [ALGORITHM_INIT] fails: the handler returns [EINVAL] with [errno] set
    to [EINVAL], no probe is handed to the loop, no event is thrown, and
    the heap and the slot [*pdata] are as they were. *)
Theorem init_rejects_invalid_options event (opts : option traceroute_options_t) w :
  type event = ALGORITHM_INIT ->
  (opts = None \/ exists o, opts = Some o /\ min_ttl o >= max_ttl o) ->
  exists w',
    handler event opts w = Returns EINVAL w' /\
    errno w' = EINVAL /\
    loop w' = loop w /\
    pdata w' = pdata w /\
    mem w' = mem w /\
    probe_skel w' = probe_skel w.
Proof.
  intros Ht Hopts. exists (set_errno EINVAL w).
  split; [| now repeat split].
  unfold traceroute_handler. rewrite Ht.
  destruct Hopts as [-> | (o & -> & Hge)]; [reflexivity |].
  destruct (Z.geb_spec (min_ttl o) (max_ttl o)); [reflexivity | lia].
Qed.

(** C7, amended.  With [min_ttl < max_ttl] and [min_ttl] a value that both
    the type of [data->ttl] and the [uint8_t] parameter of
    [send_traceroute_probe] hold, that is, within 0..255, when [malloc]
    succeeds and the ttl of the skeleton can be set, [ALGORITHM_INIT]
    returns 0, and leaves in [*pdata] a block that was not in use, all
    zero but for [ttl], which is [min_ttl], and [num_sent_probes], which
    is 1; exactly one probe has been sent, the skeleton with its ttl set
    to [min_ttl]. *)
Theorem init_sends_first_probe event o w skel :
  type event = ALGORITHM_INIT ->
  min_ttl o < max_ttl o ->
  0 <= min_ttl o <= 255 ->
  min_ttl o < 2 ^ Z.pos ttl_bits ->
  malloc_fails (mem w) = false ->
  probe_set_fields (probe_skel w) (I8 "ttl" (min_ttl o)) = (0, skel) ->
  exists l w',
    handler event (Some o) w = Returns 0 w' /\
    mem w !! l = None /\
    pdata w' = Some l /\
    mem w' = <[l := {| destination_reached := false; ttl := min_ttl o;
                       num_sent_probes := 1; num_stars := 0;
                       num_undiscovered := 0 |}]> (mem w) /\
    sendq (loop w') = sendq (loop w) ++ [skel] /\
    thrown (loop w') = thrown (loop w) /\
    errno w' = errno w.
Proof.
  intros Ht Hlt Httl Hfit Hm Hset.
  exists (fresh (dom (mem w))).
  unfold traceroute_handler. rewrite Ht.
  destruct (Z.geb_spec (min_ttl o) (max_ttl o)); [lia |].
  unfold malloc. rewrite Hm.
  rewrite (wrap_small ttl_bits (min_ttl o)) by lia.
  cbn [ttl set_ttl zero_data num_sent_probes].
  rewrite (send_probe_ok _ _ skel)
    by (cbn [probe_skel store set_mem]; now rewrite to_uint8_small).
  rewrite Z.add_0_l, wrap_one.
  eexists. split; [reflexivity |].
  split. { apply not_elem_of_dom, is_fresh. }
  cbn. repeat split. apply insert_insert_eq.
Qed.

(** *** The next probe *)

(** What the block "Send next probe packet" does, case by case. *)
Lemma next_probe_max_ttl event o l d w :
  ttl d > max_ttl o ->
  let caller := cur_instance_caller (loop w) in
  next_probe event o l d w =
    Returns 0 (store l d
      (pt_algorithm_throw w caller
         (event_create TRACEROUTE_MAX_TTL_REACHED (data event) caller))).
Proof.
  intros H. unfold send_next_probe.
  destruct (Z.gtb_spec (ttl d) (max_ttl o)); [reflexivity | lia].
Qed.

Lemma next_probe_sent event o l d w skel :
  ttl d <= max_ttl o ->
  probe_set_fields (probe_skel w) (I8 "ttl" (to_uint8 (ttl d))) = (0, skel) ->
  next_probe event o l d w =
    Returns 0
      (store l (set_num_sent_probes (wrap size_bits (num_sent_probes d + 1)) d)
         (pt_send_probe (set_probe_skel skel w) skel)).
Proof.
  intros H Hset. unfold send_next_probe.
  destruct (Z.gtb_spec (ttl d) (max_ttl o)); [lia |].
  now rewrite (send_probe_ok _ _ skel).
Qed.

Lemma next_probe_failed event o l d w rc skel :
  ttl d <= max_ttl o ->
  probe_set_fields (probe_skel w) (I8 "ttl" (to_uint8 (ttl d))) = (rc, skel) ->
  rc <> 0 ->
  next_probe event o l d w = Returns EINVAL (store l d (set_probe_skel skel w)).
Proof.
  intros H Hset Hrc. unfold send_next_probe.
  destruct (Z.gtb_spec (ttl d) (max_ttl o)); [lia |].
  now rewrite (send_probe_ko _ _ rc skel).
Qed.

(** The block always returns, keeps the slot and the events thrown so
    far, and writes the block [l] only, changing at most
    [num_sent_probes]. *)
Lemma next_probe_returns event o l d w :
  exists ret w' d' more,
    next_probe event o l d w = Returns ret w' /\
    pdata w' = pdata w /\
    mem w' = <[l := d']> (mem w) /\
    thrown (loop w') = thrown (loop w) ++ more /\
    ttl d' = ttl d /\
    destination_reached d' = destination_reached d /\
    num_stars d' = num_stars d /\
    num_undiscovered d' = num_undiscovered d.
Proof.
  destruct (Z.gtb_spec (ttl d) (max_ttl o)) as [Hgt | Hle].
  - rewrite next_probe_max_ttl by lia. eexists _, _, d, [_]. now repeat split.
  - destruct (probe_set_fields (probe_skel w) (I8 "ttl" (to_uint8 (ttl d))))
      as [rc skel] eqn:Hset.
    destruct (Z.eq_dec rc 0) as [-> | Hrc].
    + rewrite (next_probe_sent _ _ _ _ _ skel) by (lia || assumption).
      eexists _, _, _, []. split; [reflexivity |].
      cbn. rewrite app_nil_r. now repeat split.
    + rewrite (next_probe_failed _ _ _ _ _ rc skel) by (lia || assumption).
      eexists _, _, d, []. cbn. rewrite app_nil_r. now repeat split.
Qed.

(** *** PROBE_REPLY and PROBE_TIMEOUT, step by step *)

Lemma handler_reply event o w l d pr b :
  type event = PROBE_REPLY ->
  data event = ReplyData pr ->
  pdata w = Some l ->
  mem w !! l = Some d ->
  num_probes o <> 0 ->
  destination_reached_check probe_get_field (dst_ip o) (reply pr) = Some b ->
  let caller := cur_instance_caller (loop w) in
  let w1 := pt_algorithm_throw w caller
              (event_create TRACEROUTE_PROBE_REPLY (data event) caller) in
  handler event (Some o) w =
    if hop_boundary d o then
      if destination_reached d || b then
        Returns 0 (store l (replied b d)
          (pt_algorithm_throw w1 caller
             (event_create TRACEROUTE_DESTINATION_REACHED (data event) caller)))
      else
        next_probe event o l
          (set_ttl (wrap ttl_bits (ttl d + 1)) (replied b d)) w1
    else next_probe event o l (replied b d) w1.
Proof.
  intros Ht Hdata Hp Hd Hn Hb. unfold traceroute_handler.
  rewrite Ht, Hp, Hd, Hdata.
  destruct (Z.eqb_spec (num_probes o) 0); [contradiction |].
  rewrite Hb. reflexivity.
Qed.

Lemma handler_timeout event o w l d :
  type event = PROBE_TIMEOUT ->
  pdata w = Some l ->
  mem w !! l = Some d ->
  num_probes o <> 0 ->
  handler event (Some o) w =
    if hop_boundary d o then
      if num_undiscovered (hop_closed size_bits o d) =? 3 then
        Returns 0 (store l (hop_closed size_bits o d) w)
      else
        next_probe event o l
          (set_ttl (wrap ttl_bits (ttl d + 1)) (hop_closed size_bits o d)) w
    else next_probe event o l (starred size_bits d) w.
Proof.
  intros Ht Hp Hd Hn. unfold traceroute_handler.
  rewrite Ht, Hp, Hd.
  destruct (Z.eqb_spec (num_probes o) 0); [contradiction |].
  unfold hop_boundary, hop_closed, starred.
  destruct (_ =? 0); [| reflexivity].
  cbn [num_stars set_num_stars].
  destruct (_ =? num_probes o); reflexivity.
Qed.

Lemma check_src_ip o pr f src dst :
  dst_ip o = Some dst ->
  probe_get_field (reply pr) "src_ip" = Some f ->
  value f = VString src ->
  destination_reached_check probe_get_field (dst_ip o) (reply pr)
  = Some (String.eqb src dst).
Proof.
  intros -> Hf Hv. unfold destination_reached_check. rewrite Hf.
  destruct f as [k v]. simpl in Hv. now subst v.
Qed.

(** *** PROBE_REPLY *)

(** C6. On [PROBE_REPLY], for an initialised instance whose options name
    a destination and a reply that has a source address, the handler
    returns and leaves a state in which [num_stars] and [num_undiscovered]
    are 0; it has thrown to the caller a [TRACEROUTE_PROBE_REPLY] event
    with the data of the event it received; and [destination_reached] is
    the former flag or-ed with "[src_ip] is [dst_ip]": set whenever the
    two addresses are equal. *)
Theorem reply_resets_and_forwards event o w l d pr f src dst :
  type event = PROBE_REPLY ->
  data event = ReplyData pr ->
  pdata w = Some l ->
  mem w !! l = Some d ->
  num_probes o <> 0 ->
  dst_ip o = Some dst ->
  probe_get_field (reply pr) "src_ip" = Some f ->
  value f = VString src ->
  let caller := cur_instance_caller (loop w) in
  exists ret w' d' more,
    handler event (Some o) w = Returns ret w' /\
    pdata w' = Some l /\
    mem w' !! l = Some d' /\
    num_stars d' = 0 /\
    num_undiscovered d' = 0 /\
    thrown (loop w') =
      thrown (loop w)
      ++ (caller, event_create TRACEROUTE_PROBE_REPLY (data event) caller)
      :: more /\
    destination_reached d' = destination_reached d || String.eqb src dst /\
    (src = dst -> destination_reached d' = true).
Proof.
  intros Ht Hdata Hp Hd Hn Hdst Hf Hv caller.
  pose proof (check_src_ip _ _ _ _ _ Hdst Hf Hv) as Hb.
  rewrite (handler_reply _ _ _ _ _ _ _ Ht Hdata Hp Hd Hn Hb).
  fold caller.
  set (b := String.eqb src dst) in *.
  assert (Heq : src = dst -> destination_reached d || b = true).
  { intros ->. unfold b. rewrite String.eqb_refl. apply orb_true_r. }
  set (w1 := pt_algorithm_throw w caller _).
  assert (Hstep : forall d1,
    num_stars d1 = 0 -> num_undiscovered d1 = 0 ->
    destination_reached d1 = destination_reached d || b ->
    exists ret w' d' more,
      next_probe event o l d1 w1 = Returns ret w' /\ pdata w' = Some l /\
      mem w' !! l = Some d' /\ num_stars d' = 0 /\ num_undiscovered d' = 0 /\
      thrown (loop w') =
        thrown (loop w)
        ++ (caller, event_create TRACEROUTE_PROBE_REPLY (data event) caller)
        :: more /\
      destination_reached d' = destination_reached d || b /\
      (src = dst -> destination_reached d' = true)).
  { intros d1 H1 H2 H3.
    destruct (next_probe_returns event o l d1 w1)
      as (ret & w' & d' & more & -> & Hp' & Hm & Hth & _ & Hfl & Hs & Hu).
    exists ret, w', d', more. split; [reflexivity |].
    rewrite Hp', Hm, lookup_insert_eq, Hth, Hs, Hu, Hfl, H3.
    repeat split; auto. unfold w1. cbn. now rewrite <- app_assoc. }
  destruct (hop_boundary d o).
  - destruct (destination_reached d || b) eqn:Hflag.
    + eexists _, _, (replied b d), [_]. split; [reflexivity |].
      cbn. rewrite lookup_insert_eq, <- app_assoc. now repeat split.
    + apply Hstep; cbn; auto.
  - apply Hstep; cbn; auto.
Qed.

(** C3. A [PROBE_REPLY] on a hop boundary.  When [destination_reached] is
    set, by this reply or by an earlier one, the handler returns 0 having
    thrown [TRACEROUTE_PROBE_REPLY] and then
    [TRACEROUTE_DESTINATION_REACHED] to the caller, and sends no probe.
    Otherwise [ttl] is incremented, in the type of the field, and it is
    the incremented [ttl] that is compared with [max_ttl] and given to the
    next probe.  In the first scenario of the spec five
    [TRACEROUTE_PROBE_REPLY] events are thrown, then
    [TRACEROUTE_DESTINATION_REACHED], and nothing else. *)
Theorem reply_at_hop_boundary event o w l d pr f src dst :
  type event = PROBE_REPLY ->
  data event = ReplyData pr ->
  pdata w = Some l ->
  mem w !! l = Some d ->
  num_probes o <> 0 ->
  dst_ip o = Some dst ->
  probe_get_field (reply pr) "src_ip" = Some f ->
  value f = VString src ->
  hop_boundary d o = true ->
  let caller := cur_instance_caller (loop w) in
  let forward := (caller, event_create TRACEROUTE_PROBE_REPLY (data event) caller) in
  (destination_reached d || String.eqb src dst = true ->
   exists w' d',
     handler event (Some o) w = Returns 0 w' /\
     mem w' !! l = Some d' /\
     destination_reached d' = true /\
     ttl d' = ttl d /\
     num_sent_probes d' = num_sent_probes d /\
     sendq (loop w') = sendq (loop w) /\
     thrown (loop w') =
       thrown (loop w)
       ++ [forward;
           (caller,
            event_create TRACEROUTE_DESTINATION_REACHED (data event) caller)])
  /\
  (destination_reached d || String.eqb src dst = false ->
   exists ret w' d',
     handler event (Some o) w = Returns ret w' /\
     mem w' !! l = Some d' /\
     destination_reached d' = false /\
     ttl d' = wrap ttl_bits (ttl d + 1) /\
     (ttl d' > max_ttl o ->
      ret = 0 /\
      sendq (loop w') = sendq (loop w) /\
      thrown (loop w') =
        thrown (loop w)
        ++ [forward;
            (caller,
             event_create TRACEROUTE_MAX_TTL_REACHED (data event) caller)]) /\
     (ttl d' <= max_ttl o ->
      forall skel,
        probe_set_fields (probe_skel w) (I8 "ttl" (to_uint8 (ttl d')))
        = (0, skel) ->
        ret = 0 /\
        sendq (loop w') = sendq (loop w) ++ [skel] /\
        thrown (loop w') = thrown (loop w) ++ [forward]))
  /\
  (exists final : @world (list field_t),
     SimpleProbe.run SimpleProbe.happy_path
       (Some (SimpleProbe.options 1 5 1 "10.0.0.5")) SimpleProbe.boot
     = Some final /\
     SimpleProbe.thrown_types final =
       [TRACEROUTE_PROBE_REPLY; TRACEROUTE_PROBE_REPLY; TRACEROUTE_PROBE_REPLY;
        TRACEROUTE_PROBE_REPLY; TRACEROUTE_PROBE_REPLY;
        TRACEROUTE_DESTINATION_REACHED] /\
     Forall (fun ie => fst ie = 0%nat) (thrown (loop final)) /\
     SimpleProbe.sent_ttls final =
       [Some (I8 "ttl" 1); Some (I8 "ttl" 2); Some (I8 "ttl" 3);
        Some (I8 "ttl" 4); Some (I8 "ttl" 5)]).
Proof.
  intros Ht Hdata Hp Hd Hn Hdst Hf Hv Hi caller forward.
  pose proof (check_src_ip _ _ _ _ _ Hdst Hf Hv) as Hb.
  rewrite (handler_reply _ _ _ _ _ _ _ Ht Hdata Hp Hd Hn Hb), Hi.
  fold caller. fold forward.
  set (b := String.eqb src dst) in *.
  split; [| split].
  - intros Hflag. rewrite Hflag.
    eexists _, (replied b d). split; [reflexivity |].
    cbn. rewrite lookup_insert_eq, <- app_assoc.
    repeat split; auto.
  - intros Hflag. rewrite Hflag.
    set (d1 := set_ttl _ _). set (w1 := pt_algorithm_throw _ _ _).
    assert (Hd1 : ttl d1 = wrap ttl_bits (ttl d + 1)) by reflexivity.
    assert (Hf1 : destination_reached d1 = false) by exact Hflag.
    destruct (Z.gtb_spec (ttl d1) (max_ttl o)) as [Hgt | Hle].
    + rewrite next_probe_max_ttl by lia.
      eexists _, _, d1. split; [reflexivity |].
      cbn [mem store set_mem]. rewrite lookup_insert_eq.
      split_and!; auto.
      * intros _. cbn. rewrite <- app_assoc. auto.
      * intros Hle. lia.
    + destruct (probe_set_fields (probe_skel w1) (I8 "ttl" (to_uint8 (ttl d1))))
        as [rc skel] eqn:Hset.
      destruct (Z.eq_dec rc 0) as [-> | Hrc].
      * rewrite (next_probe_sent _ _ _ _ _ skel) by (lia || assumption).
        eexists _, _, _. split; [reflexivity |].
        cbn [mem store set_mem]. rewrite lookup_insert_eq.
        split_and!; auto.
        -- intros Hgt. cbn in Hgt, Hle. lia.
        -- intros _ skel' Hset'. cbn in Hset, Hset'. rewrite Hset in Hset'.
           inversion Hset'; subst skel'. cbn. auto.
      * rewrite (next_probe_failed _ _ _ _ _ rc skel) by (lia || assumption).
        eexists _, _, d1. split; [reflexivity |].
        cbn [mem store set_mem]. rewrite lookup_insert_eq.
        split_and!; auto.
        -- intros Hgt. lia.
        -- intros _ skel' Hset'. cbn in Hset, Hset'. rewrite Hset in Hset'.
           inversion Hset'; contradiction.
  - eexists. split; [vm_compute; reflexivity |].
    split; [vm_compute; reflexivity |].
    split; [| vm_compute; reflexivity].
    repeat constructor.
Qed.

(** *** The next probe, after a reply or a timeout *)

Lemma next_probe_cases event o l d w :
  let caller := cur_instance_caller (loop w) in
  exists ret w' d',
    next_probe event o l d w = Returns ret w' /\
    pdata w' = pdata w /\
    mem w' = <[l := d']> (mem w) /\
    ttl d' = ttl d /\
    destination_reached d' = destination_reached d /\
    num_stars d' = num_stars d /\
    num_undiscovered d' = num_undiscovered d /\
    (ttl d > max_ttl o ->
     ret = 0 /\
     sendq (loop w') = sendq (loop w) /\
     thrown (loop w') =
       thrown (loop w)
       ++ [(caller, event_create TRACEROUTE_MAX_TTL_REACHED (data event) caller)] /\
     num_sent_probes d' = num_sent_probes d) /\
    (ttl d <= max_ttl o ->
     thrown (loop w') = thrown (loop w) /\
     forall rc skel,
       probe_set_fields (probe_skel w) (I8 "ttl" (to_uint8 (ttl d))) = (rc, skel) ->
       (rc = 0 ->
        ret = 0 /\
        sendq (loop w') = sendq (loop w) ++ [skel] /\
        num_sent_probes d' = wrap size_bits (num_sent_probes d + 1)) /\
       (rc <> 0 ->
        ret = EINVAL /\
        sendq (loop w') = sendq (loop w) /\
        num_sent_probes d' = num_sent_probes d)).
Proof.
  intros caller.
  destruct (Z.gtb_spec (ttl d) (max_ttl o)) as [Hgt | Hle].
  - rewrite next_probe_max_ttl by lia. eexists _, _, d.
    split; [reflexivity |]. split_and!; auto.
    intros Hle. lia.
  - destruct (probe_set_fields (probe_skel w) (I8 "ttl" (to_uint8 (ttl d))))
      as [rc skel] eqn:Hset.
    destruct (Z.eq_dec rc 0) as [-> | Hrc].
    + rewrite (next_probe_sent _ _ _ _ _ skel) by (lia || assumption).
      eexists _, _, _. split; [reflexivity |]. split_and!; auto.
      * intros Hgt. lia.
      * intros _. split; [reflexivity |].
        intros rc skel' [= <- <-]. split; [auto | lia].
    + rewrite (next_probe_failed _ _ _ _ _ rc skel) by (lia || assumption).
      eexists _, _, d. split; [reflexivity |]. split_and!; auto.
      * intros Hgt. lia.
      * intros _. split; [reflexivity |].
        intros rc' skel' [= <- <-]. split; [contradiction | auto].
Qed.

(** C4. A [PROBE_REPLY] or a [PROBE_TIMEOUT] that does not stop the
    instance leaves a [ttl] that is the former one, or the former one
    incremented on a hop boundary.  When this [ttl] exceeds [max_ttl] the
    handler throws [TRACEROUTE_MAX_TTL_REACHED] to the caller and sends no
    probe.  Otherwise, when the ttl of the skeleton can be set, it sends
    exactly one probe, the skeleton with this [ttl], increments
    [num_sent_probes], and throws no [TRACEROUTE_MAX_TTL_REACHED]. *)
Theorem next_probe_or_max_ttl event o w l d :
  type event = PROBE_REPLY \/ type event = PROBE_TIMEOUT ->
  pdata w = Some l ->
  mem w !! l = Some d ->
  num_probes o <> 0 ->
  readable probe_get_field o event ->
  let caller := cur_instance_caller (loop w) in
  exists ret w' d',
    handler event (Some o) w = Returns ret w' /\
    mem w' !! l = Some d' /\
    (stops (type event) o d d' = false ->
     ttl d' = (if hop_boundary d o then wrap ttl_bits (ttl d + 1) else ttl d) /\
     (ttl d' > max_ttl o ->
      ret = 0 /\
      sendq (loop w') = sendq (loop w) /\
      thrown (loop w') =
        thrown (loop w) ++ forwarded event w
        ++ [(caller,
             event_create TRACEROUTE_MAX_TTL_REACHED (data event) caller)] /\
      num_sent_probes d' = num_sent_probes d) /\
     (ttl d' <= max_ttl o ->
      (0 <= ttl d -> max_ttl o <= 255 -> to_uint8 (ttl d') = ttl d') /\
      forall skel,
        probe_set_fields (probe_skel w) (I8 "ttl" (to_uint8 (ttl d')))
        = (0, skel) ->
        ret = 0 /\
        sendq (loop w') = sendq (loop w) ++ [skel] /\
        thrown (loop w') = thrown (loop w) ++ forwarded event w /\
        num_sent_probes d' = wrap size_bits (num_sent_probes d + 1))).
Proof.
  intros Ht Hp Hd Hn Hr caller.
  assert (Hnext : forall d1 w1,
    mem w1 = mem w -> sendq (loop w1) = sendq (loop w) ->
    probe_skel w1 = probe_skel w ->
    cur_instance_caller (loop w1) = caller ->
    thrown (loop w1) = thrown (loop w) ++ forwarded event w ->
    num_sent_probes d1 = num_sent_probes d ->
    ttl d1 = (if hop_boundary d o then wrap ttl_bits (ttl d + 1) else ttl d) ->
    exists ret w' d',
      next_probe event o l d1 w1 = Returns ret w' /\
      mem w' !! l = Some d' /\
      (stops (type event) o d d' = false ->
       ttl d' = (if hop_boundary d o then wrap ttl_bits (ttl d + 1) else ttl d) /\
       (ttl d' > max_ttl o ->
        ret = 0 /\
        sendq (loop w') = sendq (loop w) /\
        thrown (loop w') =
          thrown (loop w) ++ forwarded event w
          ++ [(caller,
               event_create TRACEROUTE_MAX_TTL_REACHED (data event) caller)] /\
        num_sent_probes d' = num_sent_probes d) /\
       (ttl d' <= max_ttl o ->
        (0 <= ttl d -> max_ttl o <= 255 -> to_uint8 (ttl d') = ttl d') /\
        forall skel,
          probe_set_fields (probe_skel w) (I8 "ttl" (to_uint8 (ttl d')))
          = (0, skel) ->
          ret = 0 /\
          sendq (loop w') = sendq (loop w) ++ [skel] /\
          thrown (loop w') = thrown (loop w) ++ forwarded event w /\
          num_sent_probes d' = wrap size_bits (num_sent_probes d + 1)))).
  { intros d1 w1 Hm Hq Hs Hc Hth Hsent Httl.
    destruct (next_probe_cases event o l d1 w1)
      as (ret & w' & d' & -> & _ & Hm' & Ht' & _ & _ & _ & Hmax & Hsend).
    exists ret, w', d'. split; [reflexivity |].
    split; [rewrite Hm'; apply lookup_insert_eq |].
    intros _. rewrite Ht', Httl, <- Httl.
    split; [reflexivity |]. split.
    - intros Hgt. destruct (Hmax Hgt) as (-> & Hq' & Hth' & Hn').
      rewrite Hq', Hth', Hth, Hc, Hn', <- app_assoc. auto.
    - intros Hle. destruct (Hsend Hle) as (Hth' & Hset). split.
      + intros H0 H255. apply to_uint8_small. split; [| lia].
        rewrite Httl. destruct (hop_boundary d o); [apply wrap_range | lia].
      + intros skel Hskel. rewrite <- Hs in Hskel.
        destruct (Hset 0 skel Hskel) as [Hok _].
        destruct (Hok eq_refl) as (-> & Hq' & Hn').
        rewrite Hq', Hth', Hth, Hn', Hq, Hsent. auto. }
  destruct Ht as [Ht | Ht].
  - assert (exists pr b, data event = ReplyData pr /\
      destination_reached_check probe_get_field (dst_ip o) (reply pr) = Some b)
      as (pr & b & Hdata & Hb).
    { unfold readable in Hr. rewrite Ht in Hr.
      destruct (data event) as [| |pr]; try contradiction.
      destruct Hr as [b Hb]. eauto. }
    rewrite (handler_reply _ _ _ _ _ _ _ Ht Hdata Hp Hd Hn Hb).
    fold caller.
    assert (Hfw : forwarded event w =
      [(caller, event_create TRACEROUTE_PROBE_REPLY (data event) caller)]).
    { unfold forwarded. now rewrite Ht. }
    destruct (hop_boundary d o) eqn:Hi.
    + destruct (destination_reached d || b) eqn:Hflag.
      * eexists _, _, (replied b d). split; [reflexivity |].
        split; [cbn; apply lookup_insert_eq |].
        unfold stops. rewrite Hi, Ht. cbn. rewrite Hflag. discriminate.
      * apply Hnext; auto. cbn. now rewrite Hfw.
    + apply Hnext; auto. cbn. now rewrite Hfw.
  - rewrite (handler_timeout _ _ _ _ _ Ht Hp Hd Hn).
    assert (Hfw : forwarded event w = []).
    { unfold forwarded. now rewrite Ht. }
    assert (Hsame : num_sent_probes (hop_closed size_bits o d) = num_sent_probes d).
    { unfold hop_closed. now destruct (_ =? _). }
    assert (Httl : ttl (hop_closed size_bits o d) = ttl d).
    { unfold hop_closed. now destruct (_ =? _). }
    destruct (hop_boundary d o) eqn:Hi.
    + destruct (num_undiscovered (hop_closed size_bits o d) =? 3) eqn:Hu.
      * eexists _, _, (hop_closed size_bits o d). split; [reflexivity |].
        split; [cbn; apply lookup_insert_eq |].
        unfold stops. rewrite Hi, Ht. cbn. rewrite Hu. discriminate.
      * apply Hnext; auto. rewrite Hfw. now rewrite app_nil_r.
    + apply Hnext; auto. rewrite Hfw. now rewrite app_nil_r.
Qed.

(** *** PROBE_TIMEOUT *)

(** C5. On [PROBE_TIMEOUT], for an initialised instance whose skeleton
    takes any ttl, the handler returns and [num_stars] has been
    incremented.  On a hop boundary [num_undiscovered] has been
    incremented exactly when the incremented [num_stars] equals
    [num_probes]; the handler stops, with no probe sent and no event
    thrown, exactly when [num_undiscovered] is then 3, whatever
    [num_probes] is, and then [ttl] is unchanged; otherwise [ttl] has been
    incremented, and the handler has thrown [TRACEROUTE_MAX_TTL_REACHED]
    or sent one probe.  Off a hop boundary [num_undiscovered] and [ttl]
    are unchanged. *)
Theorem timeout_counts_stars event o w l d :
  type event = PROBE_TIMEOUT ->
  pdata w = Some l ->
  mem w !! l = Some d ->
  num_probes o <> 0 ->
  (forall t, fst (probe_set_fields (probe_skel w) (I8 "ttl" t)) = 0) ->
  let caller := cur_instance_caller (loop w) in
  exists ret w' d',
    handler event (Some o) w = Returns ret w' /\
    pdata w' = Some l /\
    mem w' !! l = Some d' /\
    num_stars d' = wrap size_bits (num_stars d + 1) /\
    (hop_boundary d o = true ->
     num_undiscovered d' =
       (if num_stars d' =? num_probes o
        then wrap size_bits (num_undiscovered d + 1)
        else num_undiscovered d) /\
     (num_undiscovered d' = 3 <->
      sendq (loop w') = sendq (loop w) /\
      thrown (loop w') = thrown (loop w)) /\
     (num_undiscovered d' = 3 ->
      ret = 0 /\ ttl d' = ttl d /\ num_sent_probes d' = num_sent_probes d) /\
     (num_undiscovered d' <> 3 ->
      ret = 0 /\
      ttl d' = wrap ttl_bits (ttl d + 1) /\
      (ttl d' > max_ttl o ->
       sendq (loop w') = sendq (loop w) /\
       thrown (loop w') =
         thrown (loop w)
         ++ [(caller,
              event_create TRACEROUTE_MAX_TTL_REACHED (data event) caller)]) /\
      (ttl d' <= max_ttl o ->
       sendq (loop w') =
         sendq (loop w)
         ++ [snd (probe_set_fields (probe_skel w)
                    (I8 "ttl" (to_uint8 (ttl d'))))] /\
       thrown (loop w') = thrown (loop w)))) /\
    (hop_boundary d o = false ->
     num_undiscovered d' = num_undiscovered d /\ ttl d' = ttl d).
Proof.
  intros Ht Hp Hd Hn Hset caller.
  rewrite (handler_timeout _ _ _ _ _ Ht Hp Hd Hn).
  assert (Hstars : num_stars (hop_closed size_bits o d)
                   = wrap size_bits (num_stars d + 1)).
  { unfold hop_closed. now destruct (_ =? _). }
  assert (Hund : num_undiscovered (hop_closed size_bits o d) =
    if wrap size_bits (num_stars d + 1) =? num_probes o
    then wrap size_bits (num_undiscovered d + 1) else num_undiscovered d).
  { unfold hop_closed. cbn [starred num_stars set_num_stars].
    now destruct (_ =? _). }
  assert (Hsame : ttl (hop_closed size_bits o d) = ttl d /\
    num_sent_probes (hop_closed size_bits o d) = num_sent_probes d).
  { unfold hop_closed. now destruct (_ =? _). }
  destruct (hop_boundary d o) eqn:Hi.
  - destruct (Z.eqb_spec (num_undiscovered (hop_closed size_bits o d)) 3)
      as [Hu | Hu].
    + eexists _, _, (hop_closed size_bits o d). split; [reflexivity |].
      split; [exact Hp |]. split; [cbn; apply lookup_insert_eq |].
      split; [exact Hstars |]. split; [| discriminate].
      intros _. rewrite Hstars. split; [exact Hund |].
      split; [split; [intros _; split; reflexivity | intros _; exact Hu] |].
      split; [intros _; destruct Hsame; auto | contradiction].
    + set (d1 := set_ttl (wrap ttl_bits (ttl d + 1)) (hop_closed size_bits o d)).
      assert (Hd1 : num_stars d1 = wrap size_bits (num_stars d + 1) /\
                    num_undiscovered d1
                    = num_undiscovered (hop_closed size_bits o d) /\
                    ttl d1 = wrap ttl_bits (ttl d + 1)) by (cbn; auto).
      destruct Hd1 as (Hs1 & Hu1 & Ht1).
      destruct (Z.gtb_spec (ttl d1) (max_ttl o)) as [Hgt | Hle].
      * rewrite next_probe_max_ttl by lia. fold caller.
        eexists _, _, d1. split; [reflexivity |].
        split; [exact Hp |]. split; [cbn; apply lookup_insert_eq |].
        split; [exact Hs1 |]. split; [| discriminate].
        intros _. rewrite Hs1, Hu1, Ht1. split; [exact Hund |].
        split; [split; [contradiction |] |].
        { intros [_ Hth]. cbn in Hth. now apply app_one_neq in Hth. }
        split; [contradiction |]. intros _.
        split; [reflexivity |]. split; [reflexivity |].
        split; [intros _; split; reflexivity | intros Hle; lia].
      * destruct (probe_set_fields (probe_skel w)
                    (I8 "ttl" (to_uint8 (ttl d1)))) as [rc skel] eqn:E.
        pose proof (Hset (to_uint8 (ttl d1))) as Hrc.
        rewrite E in Hrc. cbn in Hrc. subst rc.
        rewrite (next_probe_sent _ _ _ _ _ skel) by (lia || assumption).
        eexists _, _, _. split; [reflexivity |].
        split; [exact Hp |]. split; [cbn; apply lookup_insert_eq |].
        split; [exact Hs1 |]. split; [| discriminate].
        intros _. cbn [num_stars num_undiscovered ttl set_num_sent_probes].
        rewrite Hs1, Hu1, Ht1. split; [exact Hund |].
        split; [split; [contradiction |] |].
        { intros [Hq _]. cbn in Hq. now apply app_one_neq in Hq. }
        split; [contradiction |]. intros _.
        split; [reflexivity |]. split; [reflexivity |].
        split; [intros Hgt; lia |].
        intros _. rewrite <- Ht1, E. split; reflexivity.
  - destruct (next_probe_cases event o l (starred size_bits d) w)
      as (ret & w' & d' & -> & Hp' & Hm & Ht' & _ & Hs' & Hu' & _).
    exists ret, w', d'. split; [reflexivity |].
    rewrite Hp', Hm, lookup_insert_eq, Hs', Hu', Ht'.
    split_and!; auto. discriminate.
Qed.

(** *** The heap across a call *)

(** A reply or a timeout writes the block of the instance only, and can
    only set the flag. *)
Lemma reply_writes_own_block event o w l d pr b ret w' :
  type event = PROBE_REPLY ->
  data event = ReplyData pr ->
  pdata w = Some l ->
  mem w !! l = Some d ->
  num_probes o <> 0 ->
  destination_reached_check probe_get_field (dst_ip o) (reply pr) = Some b ->
  handler event (Some o) w = Returns ret w' ->
  exists d',
    mem w' = <[l := d']> (mem w) /\ pdata w' = pdata w /\
    destination_reached d' = destination_reached d || b.
Proof.
  intros Ht Hdata Hp Hd Hn Hb.
  rewrite (handler_reply _ _ _ _ _ _ _ Ht Hdata Hp Hd Hn Hb).
  set (w1 := pt_algorithm_throw w _ _).
  assert (Hnext : forall d1,
    destination_reached d1 = destination_reached d || b ->
    next_probe event o l d1 w1 = Returns ret w' ->
    exists d', mem w' = <[l := d']> (mem w) /\ pdata w' = pdata w /\
      destination_reached d' = destination_reached d || b).
  { intros d1 Hfl H.
    destruct (next_probe_cases event o l d1 w1)
      as (ret0 & w0 & d' & E & Hp' & Hm & _ & Hfl' & _).
    rewrite E in H. inversion H; subst ret0 w0.
    exists d'. rewrite Hm, Hp', Hfl', Hfl. auto. }
  destruct (hop_boundary d o).
  - destruct (destination_reached d || b) eqn:Hflag.
    + intros [= <- <-]. exists (replied b d). cbn. now rewrite Hflag.
    + apply Hnext. exact Hflag.
  - apply Hnext. reflexivity.
Qed.

Lemma timeout_writes_own_block event o w l d ret w' :
  type event = PROBE_TIMEOUT ->
  pdata w = Some l ->
  mem w !! l = Some d ->
  num_probes o <> 0 ->
  handler event (Some o) w = Returns ret w' ->
  exists d',
    mem w' = <[l := d']> (mem w) /\ pdata w' = pdata w /\
    destination_reached d' = destination_reached d.
Proof.
  intros Ht Hp Hd Hn.
  rewrite (handler_timeout _ _ _ _ _ Ht Hp Hd Hn).
  assert (Hfl : destination_reached (hop_closed size_bits o d)
                = destination_reached d).
  { unfold hop_closed. now destruct (_ =? _). }
  assert (Hnext : forall d1,
    destination_reached d1 = destination_reached d ->
    next_probe event o l d1 w = Returns ret w' ->
    exists d', mem w' = <[l := d']> (mem w) /\ pdata w' = pdata w /\
      destination_reached d' = destination_reached d).
  { intros d1 Hfl1 H.
    destruct (next_probe_cases event o l d1 w)
      as (ret0 & w0 & d' & E & Hp' & Hm & _ & Hfl' & _).
    rewrite E in H. inversion H; subst ret0 w0.
    exists d'. rewrite Hm, Hp', Hfl', Hfl1. auto. }
  destruct (hop_boundary d o).
  - destruct (_ =? 3).
    + intros [= <- <-]. exists (hop_closed size_bits o d). cbn. auto.
    + apply Hnext. exact Hfl.
  - apply Hnext. reflexivity.
Qed.

(** Whatever the event, a block whose flag is set is still there with its
    flag set after the call. *)
Lemma handler_keeps_flag event opts w ret w' l d :
  mem w !! l = Some d ->
  destination_reached d = true ->
  handler event opts w = Returns ret w' ->
  exists d', mem w' !! l = Some d' /\ destination_reached d' = true.
Proof.
  intros Hd Hfl H.
  assert (Hown : forall l0 d0 d' (b : bool),
    mem w !! l0 = Some d0 -> mem w' = <[l0 := d']> (mem w) ->
    destination_reached d' = destination_reached d0 || b ->
    exists d', mem w' !! l = Some d' /\ destination_reached d' = true).
  { intros l0 d0 d' b Hd0 Hm Hfl'. rewrite Hm.
    destruct (decide (l0 = l)) as [-> | Hne].
    - exists d'. rewrite lookup_insert_eq. split; [reflexivity |].
      rewrite Hd in Hd0. inversion Hd0; subst d0. now rewrite Hfl', Hfl.
    - exists d. now rewrite lookup_insert_ne. }
  pose proof H as H0. unfold traceroute_handler in H.
  destruct (type event) eqn:Ht.
  - (* ALGORITHM_INIT *)
    destruct opts as [o |]; [| inversion H; subst; cbn; eauto].
    destruct (min_ttl o >=? max_ttl o); [inversion H; subst; cbn; eauto |].
    unfold malloc in H.
    destruct (malloc_fails (mem w)); [inversion H; subst; cbn; eauto |].
    set (l' := fresh (dom (mem w))) in *.
    assert (Hne : l' <> l).
    { intros E. apply (is_fresh (dom (mem w))). fold l'. rewrite E.
      apply elem_of_dom. eauto. }
    match type of H with
    | context [send_traceroute_probe _ ?w1 ?t] =>
        pose proof (send_probe_frame w1 t) as (Hm & _);
        destruct (send_traceroute_probe probe_set_fields w1 t) as [ok w2]
    end.
    cbn in Hm.
    destruct ok; inversion H; subst; cbn; exists d; rewrite Hm.
    + rewrite !lookup_insert_ne by assumption. auto.
    + rewrite lookup_insert_ne by assumption. auto.
  - (* ALGORITHM_TERMINATED *)
    inversion H; subst. exists d. destruct (pdata w); cbn; auto.
  - inversion H; subst; eauto.
  - (* PROBE_REPLY *)
    destruct (pdata w) as [l0 |] eqn:Hp; [| discriminate].
    destruct (mem w !! l0) as [d0 |] eqn:Hd0; [| discriminate].
    destruct (data event) as [| | pr] eqn:Hdata; try discriminate.
    destruct opts as [o |]; [| discriminate].
    destruct (Z.eqb_spec (num_probes o) 0) as [| Hn]; [discriminate |].
    destruct (destination_reached_check probe_get_field (dst_ip o) (reply pr))
      as [b |] eqn:Hb; [| discriminate].
    destruct (reply_writes_own_block _ _ _ _ _ _ _ _ _ Ht Hdata Hp Hd0 Hn Hb H0)
      as (d' & Hm & _ & Hfl').
    eapply Hown; eauto.
  - (* PROBE_TIMEOUT *)
    destruct (pdata w) as [l0 |] eqn:Hp; [| discriminate].
    destruct (mem w !! l0) as [d0 |] eqn:Hd0; [| discriminate].
    destruct opts as [o |]; [| discriminate].
    destruct (Z.eqb_spec (num_probes o) 0) as [| Hn]; [discriminate |].
    destruct (timeout_writes_own_block _ _ _ _ _ _ _ Ht Hp Hd0 Hn H0)
      as (d' & Hm & _ & Hfl').
    apply (Hown l0 d0 d' false); auto. now rewrite orb_false_r.
  - inversion H; subst; eauto.
  - inversion H; subst; eauto.
  - inversion H; subst; eauto.
  - inversion H; subst; eauto.
Qed.

(** But for [ALGORITHM_INIT], a call leaves the slot as it is or NULL. *)
Lemma handler_keeps_slot event opts w ret w' :
  type event <> ALGORITHM_INIT ->
  handler event opts w = Returns ret w' ->
  pdata w' = pdata w \/ pdata w' = None.
Proof.
  intros Hne H. pose proof H as H0. unfold traceroute_handler in H.
  destruct (type event) eqn:Ht; try contradiction;
    try (inversion H; subst; cbn; now auto).
  - destruct (pdata w) as [l0 |] eqn:Hp; [| discriminate].
    destruct (mem w !! l0) as [d0 |] eqn:Hd0; [| discriminate].
    destruct (data event) as [| | pr] eqn:Hdata; try discriminate.
    destruct opts as [o |]; [| discriminate].
    destruct (Z.eqb_spec (num_probes o) 0) as [| Hn]; [discriminate |].
    destruct (destination_reached_check probe_get_field (dst_ip o) (reply pr))
      as [b |] eqn:Hb; [| discriminate].
    destruct (reply_writes_own_block _ _ _ _ _ _ _ _ _ Ht Hdata Hp Hd0 Hn Hb H0)
      as (d' & _ & Hp' & _).
    left. congruence.
  - destruct (pdata w) as [l0 |] eqn:Hp; [| discriminate].
    destruct (mem w !! l0) as [d0 |] eqn:Hd0; [| discriminate].
    destruct opts as [o |]; [| discriminate].
    destruct (Z.eqb_spec (num_probes o) 0) as [| Hn]; [discriminate |].
    destruct (timeout_writes_own_block _ _ _ _ _ _ _ Ht Hp Hd0 Hn H0)
      as (d' & _ & Hp' & _).
    left. congruence.
Qed.

(** *** ALGORITHM_TERMINATED *)

(** [free] is called on the local [data], which is NULL in this case: the
    heap is as before, and the slot is NULL. *)
Lemma terminated_frees_nothing event (opts : option traceroute_options_t) w :
  type event = ALGORITHM_TERMINATED ->
  handler event opts w = Returns 0 (set_pdata None w).
Proof.
  intros Ht. unfold traceroute_handler. rewrite Ht.
  now destruct (pdata w).
Qed.

(** C10. Once the flag [destination_reached] of the state of an instance
    is set, it stays set whatever events are delivered next: the record
    keeps its flag, and as long as no [ALGORITHM_INIT] comes again the
    slot [*pdata] designates this record or is NULL. *)
Theorem destination_reached_stays_set (events : list (@event_t probe_t))
  (opts : option traceroute_options_t) w w' l d :
  pdata w = Some l ->
  mem w !! l = Some d ->
  destination_reached d = true ->
  run events opts w = Some w' ->
  (exists d', mem w' !! l = Some d' /\ destination_reached d' = true) /\
  (Forall (fun e => type e <> ALGORITHM_INIT) events ->
   pdata w' = Some l \/ pdata w' = None).
Proof.
  intros Hp Hd Hfl Hrun. split.
  - clear Hp. revert w d Hd Hfl Hrun.
    induction events as [| e events IH]; intros w d Hd Hfl Hrun.
    + inversion Hrun; subst. eauto.
    + cbn in Hrun.
      destruct (handler e opts w) as [ret w1 |] eqn:He; [| discriminate].
      destruct (handler_keeps_flag _ _ _ _ _ _ _ Hd Hfl He) as (d1 & Hd1 & Hfl1).
      eapply IH; eauto.
  - intros Hall.
    assert (Hslot : pdata w = Some l \/ pdata w = None) by auto.
    clear Hp Hd. revert w Hslot Hrun.
    induction Hall as [| e events Hne _ IH]; intros w Hslot Hrun.
    + inversion Hrun; subst. assumption.
    + cbn in Hrun.
      destruct (handler e opts w) as [ret w1 |] eqn:He; [| discriminate].
      apply (IH w1); [| assumption].
      destruct (handler_keeps_slot _ _ _ _ _ Hne He) as [-> | ->]; auto.
Qed.

(** *** What the handler requires of its caller *)

(** X1. [ALGORITHM_INIT] does not look at [dst_ip], and the default
    options leave it NULL; a [PROBE_REPLY] handled with such options has
    no defined behaviour, since [strcmp] reads through [dst_ip]. *)
Theorem reply_needs_destination event o w :
  type event = PROBE_REPLY ->
  dst_ip o = None ->
  handler event (Some o) w = Undefined.
Proof.
  intros Ht Hdst. unfold traceroute_handler. rewrite Ht.
  destruct (pdata w) as [l |]; [| reflexivity].
  destruct (mem w !! l) as [d |]; [| reflexivity].
  destruct (data event) as [| | pr]; try reflexivity.
  destruct (num_probes o =? 0); [reflexivity |].
  unfold destination_reached_check. rewrite Hdst.
  destruct (probe_get_field (reply pr) "src_ip") as [[k [i | s]] |];
    reflexivity.
Qed.

(** X2. [ALGORITHM_INIT] does not look at [num_probes] either; with
    [num_probes = 0] every [PROBE_REPLY] and every [PROBE_TIMEOUT] divides
    by zero. *)
Theorem zero_probes_per_hop_divides_by_zero event o w :
  type event = PROBE_REPLY \/ type event = PROBE_TIMEOUT ->
  num_probes o = 0 ->
  handler event (Some o) w = Undefined.
Proof.
  intros Ht Hn. unfold traceroute_handler.
  destruct Ht as [-> | ->]; rewrite Hn; cbn.
  - destruct (pdata w) as [l |]; [| reflexivity].
    destruct (mem w !! l) as [d |]; [| reflexivity].
    destruct (data event); reflexivity.
  - destruct (pdata w) as [l |]; [| reflexivity].
    destruct (mem w !! l) as [d |]; reflexivity.
Qed.

(** X3. Once [ALGORITHM_TERMINATED] has been handled the slot is NULL, and
    a [PROBE_REPLY] or a [PROBE_TIMEOUT] that comes afterwards reads
    through it: a late reply or timeout has no defined behaviour. *)
Theorem event_after_terminated_is_undefined (e1 e2 : @event_t probe_t)
  (opts : option traceroute_options_t) w :
  type e1 = ALGORITHM_TERMINATED ->
  type e2 = PROBE_REPLY \/ type e2 = PROBE_TIMEOUT ->
  run [e1] opts w = Some (set_pdata None w) /\
  run [e1; e2] opts w = None.
Proof.
  intros H1 H2. cbn [deliver].
  rewrite (terminated_frees_nothing _ _ _ H1). split; [reflexivity |].
  unfold traceroute_handler. destruct H2 as [-> | ->]; reflexivity.
Qed.

(** X4. Every event but the four the handler knows, [ALGORITHM_ERROR]
    among them, makes it return [EINVAL] and change nothing, not even
    [errno]. *)
Theorem unknown_event_is_rejected event (opts : option traceroute_options_t) w :
  type event <> ALGORITHM_INIT ->
  type event <> PROBE_REPLY ->
  type event <> PROBE_TIMEOUT ->
  type event <> ALGORITHM_TERMINATED ->
  handler event opts w = Returns EINVAL w.
Proof.
  intros H1 H2 H3 H4. unfold traceroute_handler.
  destruct (type event); try contradiction; reflexivity.
Qed.

(** *** ALGORITHM_INIT, path by path *)

Lemma handler_init event o w :
  type event = ALGORITHM_INIT ->
  min_ttl o < max_ttl o ->
  handler event (Some o) w =
    if malloc_fails (mem w) then Returns EINVAL (set_errno ENOMEM w)
    else
      let l := fresh (dom (mem w)) in
      let d := set_ttl (wrap ttl_bits (min_ttl o)) zero_data in
      match probe_set_fields (probe_skel w) (I8 "ttl" (to_uint8 (ttl d))) with
      | (rc, skel) =>
          if rc =? 0 then
            Returns 0
              (set_pdata (Some l)
                 (store l (set_num_sent_probes 1 d)
                    (pt_send_probe (set_probe_skel skel (store l d w)) skel)))
          else Returns EINVAL (set_probe_skel skel (store l d w))
      end.
Proof.
  intros Ht Hlt. unfold traceroute_handler. rewrite Ht.
  destruct (Z.geb_spec (min_ttl o) (max_ttl o)); [lia |].
  unfold malloc. destruct (malloc_fails (mem w)); [reflexivity |].
  unfold send_traceroute_probe. cbn [probe_skel store set_mem].
  destruct (probe_set_fields _ _) as [rc skel].
  destruct (rc =? 0); [| reflexivity].
  cbn [num_sent_probes set_ttl zero_data]. now rewrite Z.add_0_l, wrap_one.
Qed.

(** X5. When [malloc] returns NULL, [ALGORITHM_INIT] returns [EINVAL]
    having sent nothing and thrown nothing; the heap, the slot and the
    skeleton are as they were. *)
Theorem init_out_of_memory event o w :
  type event = ALGORITHM_INIT ->
  min_ttl o < max_ttl o ->
  malloc_fails (mem w) = true ->
  exists w',
    handler event (Some o) w = Returns EINVAL w' /\
    mem w' = mem w /\
    pdata w' = pdata w /\
    loop w' = loop w /\
    probe_skel w' = probe_skel w.
Proof.
  intros Ht Hlt Hm. rewrite (handler_init _ _ _ Ht Hlt), Hm.
  eexists. split; [reflexivity |]. now split_and!.
Qed.

(** X6. When the ttl of the skeleton cannot be set, [ALGORITHM_INIT]
    returns [EINVAL] and leaves the slot as it was, with no probe sent;
    but the block it has just allocated stays in the heap, and the slot
    has not received it. *)
Theorem init_send_failure_leaks event o w rc skel :
  type event = ALGORITHM_INIT ->
  min_ttl o < max_ttl o ->
  malloc_fails (mem w) = false ->
  probe_set_fields (probe_skel w)
    (I8 "ttl" (to_uint8 (wrap ttl_bits (min_ttl o)))) = (rc, skel) ->
  rc <> 0 ->
  exists l w',
    handler event (Some o) w = Returns EINVAL w' /\
    mem w !! l = None /\
    mem w' = <[l := set_ttl (wrap ttl_bits (min_ttl o)) zero_data]> (mem w) /\
    pdata w' = pdata w /\
    loop w' = loop w /\
    errno w' = errno w.
Proof.
  intros Ht Hlt Hm Hset Hrc.
  rewrite (handler_init _ _ _ Ht Hlt), Hm. cbn zeta.
  cbn [ttl set_ttl zero_data]. rewrite Hset.
  destruct (Z.eqb_spec rc 0); [contradiction |].
  exists (fresh (dom (mem w))). eexists. split; [reflexivity |].
  assert (Hfresh : mem w !! fresh (dom (mem w)) = None)
    by apply not_elem_of_dom, is_fresh.
  cbn. split_and!; auto.
Qed.

(** *** Sending a probe, again *)

(** X7. [send_traceroute_probe] queues the skeleton exactly when
    [probe_set_fields] returns 0, and returns true exactly then; in both
    cases the skeleton is as [probe_set_fields] has left it, and the heap,
    the slot, [errno] and the events thrown are untouched. *)
Theorem send_probe_contract w t rc skel :
  probe_set_fields (probe_skel w) (I8 "ttl" (to_uint8 t)) = (rc, skel) ->
  exists ok w',
    send_probe w t = (ok, w') /\
    (ok = true <-> rc = 0) /\
    probe_skel w' = skel /\
    sendq (loop w') = sendq (loop w) ++ (if ok then [skel] else []) /\
    thrown (loop w') = thrown (loop w) /\
    mem w' = mem w /\ pdata w' = pdata w /\ errno w' = errno w.
Proof.
  intros Hset. unfold send_traceroute_probe. rewrite Hset.
  destruct (Z.eqb_spec rc 0) as [-> | Hrc]; eexists _, _;
    (split; [reflexivity |]); cbn; rewrite ?app_nil_r; split_and!; auto.
  - split; reflexivity.
  - split; [discriminate | contradiction].
Qed.

(** X8. The ttl reaches the probe through a [uint8_t]: two values that
    differ by a multiple of 256 send the same probe. *)
Theorem send_probe_ttl_modulo_256 w t k :
  send_traceroute_probe probe_set_fields w (t + 256 * k)
  = send_traceroute_probe probe_set_fields w t.
Proof.
  unfold send_traceroute_probe, to_uint8, wrap.
  change (2 ^ Z.pos 8) with 256.
  replace (t + 256 * k) with (t + k * 256) by lia.
  now rewrite Z.mod_add by lia.
Qed.

(** *** What a call can do *)

Lemma next_probe_footprint event o l d w :
  let caller := cur_instance_caller (loop w) in
  exists ret w' d' sent more,
    next_probe event o l d w = Returns ret w' /\
    (ret = 0 \/ ret = EINVAL) /\
    pdata w' = pdata w /\
    errno w' = errno w /\
    cur_instance_caller (loop w') = caller /\
    mem w' = <[l := d']> (mem w) /\
    destination_reached d' = destination_reached d /\
    sendq (loop w') = sendq (loop w) ++ sent /\
    (length sent <= 1)%nat /\
    (sent <> [] -> ret = 0) /\
    thrown (loop w') = thrown (loop w) ++ more /\
    (more = [] \/
     more = [(caller,
              event_create TRACEROUTE_MAX_TTL_REACHED (data event) caller)]).
Proof.
  intros caller.
  destruct (Z.gtb_spec (ttl d) (max_ttl o)) as [Hgt | Hle].
  - rewrite next_probe_max_ttl by lia.
    eexists 0, _, d, [], [_]. split; [reflexivity |].
    cbn. rewrite app_nil_r. split_and!; auto.
  - destruct (probe_set_fields (probe_skel w) (I8 "ttl" (to_uint8 (ttl d))))
      as [rc skel] eqn:Hset.
    destruct (Z.eq_dec rc 0) as [-> | Hrc].
    + rewrite (next_probe_sent _ _ _ _ _ skel) by (lia || assumption).
      eexists 0, _, _, [skel], []. split; [reflexivity |].
      cbn. rewrite app_nil_r. split_and!; auto.
    + rewrite (next_probe_failed _ _ _ _ _ rc skel) by (lia || assumption).
      eexists EINVAL, _, d, [], []. split; [reflexivity |].
      cbn. rewrite !app_nil_r. split_and!; auto. contradiction.
Qed.

(** Everything a call that returns has done. *)
Lemma handler_effects event (opts : option traceroute_options_t) w ret w' :
  handler event opts w = Returns ret w' ->
  let caller := cur_instance_caller (loop w) in
  (ret = 0 \/ ret = EINVAL) /\
  cur_instance_caller (loop w') = caller /\
  (type event <> ALGORITHM_INIT -> errno w' = errno w) /\
  (exists sent,
     sendq (loop w') = sendq (loop w) ++ sent /\
     (length sent <= 1)%nat /\ (sent <> [] -> ret = 0)) /\
  (exists more,
     thrown (loop w') = thrown (loop w) ++ more /\
     (length more <= 2)%nat /\
     Forall (fun ie => fst ie = caller /\ target (snd ie) = caller /\
                       data (snd ie) = data event) more /\
     (type event <> PROBE_REPLY ->
      Forall (fun ie => type (snd ie) = TRACEROUTE_MAX_TTL_REACHED) more)) /\
  (mem w' = mem w \/
   exists l d', mem w' = <[l := d']> (mem w) /\
                (mem w !! l = None \/ pdata w = Some l)).
Proof.
  intros H caller.
  assert (Hnothing : w' = w \/ w' = set_errno EINVAL w /\ type event = ALGORITHM_INIT
                     \/ w' = set_errno ENOMEM w /\ type event = ALGORITHM_INIT
                     \/ w' = set_pdata None w ->
    ret = 0 \/ ret = EINVAL ->
    (ret = 0 \/ ret = EINVAL) /\
    cur_instance_caller (loop w') = caller /\
    (type event <> ALGORITHM_INIT -> errno w' = errno w) /\
    (exists sent,
       sendq (loop w') = sendq (loop w) ++ sent /\
       (length sent <= 1)%nat /\ (sent <> [] -> ret = 0)) /\
    (exists more,
       thrown (loop w') = thrown (loop w) ++ more /\
       (length more <= 2)%nat /\
       Forall (fun ie => fst ie = caller /\ target (snd ie) = caller /\
                         data (snd ie) = data event) more /\
       (type event <> PROBE_REPLY ->
        Forall (fun ie => type (snd ie) = TRACEROUTE_MAX_TTL_REACHED) more)) /\
    (mem w' = mem w \/
     exists l d', mem w' = <[l := d']> (mem w) /\
                  (mem w !! l = None \/ pdata w = Some l))).
  { intros Hw Hret.
    assert (Hl : loop w' = loop w /\ mem w' = mem w).
    { destruct Hw as [-> | [[-> _] | [[-> _] | ->]]]; auto. }
    destruct Hl as [Hl Hm]. rewrite Hl.
    split_and!; auto.
    - intros Hne. destruct Hw as [-> | [[-> ?] | [[-> ?] | ->]]];
        auto; contradiction.
    - exists []. rewrite app_nil_r. split_and!; auto; try contradiction.
    - exists []. rewrite app_nil_r. split_and!; auto. }
  pose proof H as H0. unfold traceroute_handler in H.
  destruct (type event) eqn:Ht.
  - (* ALGORITHM_INIT *)
    destruct opts as [o |];
      [| inversion H; subst; apply Hnothing; auto].
    destruct (Z.geb_spec (min_ttl o) (max_ttl o)) as [| Hlt];
      [inversion H; subst; apply Hnothing; auto |].
    clear H. rewrite (handler_init _ _ _ Ht) in H0 by lia.
    destruct (malloc_fails (mem w));
      [inversion H0; subst; apply Hnothing; auto |].
    cbn zeta in H0.
    destruct (probe_set_fields _ _) as [rc skel].
    assert (Hfresh : mem w !! fresh (dom (mem w)) = None)
      by apply not_elem_of_dom, is_fresh.
    destruct (rc =? 0); inversion H0; subst; cbn.
    + split_and!; auto; try contradiction.
      * exists [skel]. split_and!; auto.
      * exists []. rewrite app_nil_r. split_and!; auto.
      * right. eexists _, _. split; [apply insert_insert_eq | auto].
    + split_and!; auto; try contradiction.
      * exists []. rewrite app_nil_r. split_and!; auto; try contradiction.
      * exists []. rewrite app_nil_r. split_and!; auto.
      * right. eexists _, _. split; [reflexivity | auto].
  - inversion H; subst. apply Hnothing; auto.
    right; right; right. now destruct (pdata w).
  - inversion H; subst. apply Hnothing; auto.
  - (* PROBE_REPLY *)
    destruct (pdata w) as [l |] eqn:Hp; [| discriminate].
    destruct (mem w !! l) as [d |] eqn:Hd; [| discriminate].
    destruct (data event) as [| | pr] eqn:Hdata; try discriminate.
    destruct opts as [o |]; [| discriminate].
    destruct (Z.eqb_spec (num_probes o) 0) as [| Hn]; [discriminate |].
    destruct (destination_reached_check probe_get_field (dst_ip o) (reply pr))
      as [b |] eqn:Hb; [| discriminate].
    clear H. rewrite <- Hdata in *.
    rewrite (handler_reply _ _ _ _ _ _ _ Ht Hdata Hp Hd Hn Hb) in H0.
    fold caller in H0.
    set (fw := (caller, event_create TRACEROUTE_PROBE_REPLY (data event) caller))
      in *.
    set (w1 := pt_algorithm_throw w caller (snd fw)) in *.
    assert (Hnext : forall d1, next_probe event o l d1 w1 = Returns ret w' ->
      (ret = 0 \/ ret = EINVAL) /\
      cur_instance_caller (loop w') = caller /\
      (PROBE_REPLY <> ALGORITHM_INIT -> errno w' = errno w) /\
      (exists sent,
         sendq (loop w') = sendq (loop w) ++ sent /\
         (length sent <= 1)%nat /\ (sent <> [] -> ret = 0)) /\
      (exists more,
         thrown (loop w') = thrown (loop w) ++ more /\
         (length more <= 2)%nat /\
         Forall (fun ie => fst ie = caller /\ target (snd ie) = caller /\
                           data (snd ie) = data event) more /\
         (PROBE_REPLY <> PROBE_REPLY ->
          Forall (fun ie => type (snd ie) = TRACEROUTE_MAX_TTL_REACHED) more)) /\
      (mem w' = mem w \/
       exists l0 d', mem w' = <[l0 := d']> (mem w) /\
                     (mem w !! l0 = None \/ Some l = Some l0))).
    { intros d1 E.
      destruct (next_probe_footprint event o l d1 w1)
        as (ret0 & w0 & d' & sent & more & E' & Hret & _ & Herr & Hc & Hm & _
            & Hq & Hlen & Hok & Hth & Hmore).
      rewrite E' in E. inversion E; subst ret0 w0.
      split_and!; auto.
      - exists sent. auto.
      - exists (fw :: more). split_and!.
        + rewrite Hth. unfold w1. cbn. now rewrite <- app_assoc.
        + destruct Hmore as [-> | ->]; cbn; lia.
        + destruct Hmore as [-> | ->]; repeat constructor.
        + contradiction.
      - right. exists l, d'. auto. }
    destruct (hop_boundary d o); [| exact (Hnext _ H0)].
    destruct (destination_reached d || b); [| exact (Hnext _ H0)].
    inversion H0; subst. cbn. split_and!; auto.
    + exists []. rewrite app_nil_r. split_and!; auto; try contradiction.
    + eexists [fw; _]. split_and!.
      * now rewrite <- app_assoc.
      * cbn; lia.
      * repeat constructor.
      * contradiction.
    + right. eexists _, _. split; [reflexivity | auto].
  - (* PROBE_TIMEOUT *)
    destruct (pdata w) as [l |] eqn:Hp; [| discriminate].
    destruct (mem w !! l) as [d |] eqn:Hd; [| discriminate].
    destruct opts as [o |]; [| discriminate].
    destruct (Z.eqb_spec (num_probes o) 0) as [| Hn]; [discriminate |].
    clear H. rewrite (handler_timeout _ _ _ _ _ Ht Hp Hd Hn) in H0.
    assert (Hnext : forall d1, next_probe event o l d1 w = Returns ret w' ->
      (ret = 0 \/ ret = EINVAL) /\
      cur_instance_caller (loop w') = caller /\
      (PROBE_TIMEOUT <> ALGORITHM_INIT -> errno w' = errno w) /\
      (exists sent,
         sendq (loop w') = sendq (loop w) ++ sent /\
         (length sent <= 1)%nat /\ (sent <> [] -> ret = 0)) /\
      (exists more,
         thrown (loop w') = thrown (loop w) ++ more /\
         (length more <= 2)%nat /\
         Forall (fun ie => fst ie = caller /\ target (snd ie) = caller /\
                           data (snd ie) = data event) more /\
         (PROBE_TIMEOUT <> PROBE_REPLY ->
          Forall (fun ie => type (snd ie) = TRACEROUTE_MAX_TTL_REACHED) more)) /\
      (mem w' = mem w \/
       exists l0 d', mem w' = <[l0 := d']> (mem w) /\
                     (mem w !! l0 = None \/ Some l = Some l0))).
    { intros d1 E.
      destruct (next_probe_footprint event o l d1 w)
        as (ret0 & w0 & d' & sent & more & E' & Hret & _ & Herr & Hc & Hm & _
            & Hq & Hlen & Hok & Hth & Hmore).
      rewrite E' in E. inversion E; subst ret0 w0.
      split_and!; auto.
      - exists sent. auto.
      - exists more. split_and!; auto.
        + destruct Hmore as [-> | ->]; cbn; lia.
        + destruct Hmore as [-> | ->]; repeat constructor.
        + intros _. destruct Hmore as [-> | ->]; repeat constructor.
      - right. exists l, d'. auto. }
    destruct (hop_boundary d o); [| exact (Hnext _ H0)].
    destruct (_ =? 3); [| exact (Hnext _ H0)].
    inversion H0; subst. cbn. split_and!; auto.
    + exists []. rewrite app_nil_r. split_and!; auto; try contradiction.
    + exists []. rewrite app_nil_r. split_and!; auto.
    + right. eexists _, _. split; [reflexivity | auto].
  - inversion H; subst. apply Hnothing; auto.
  - inversion H; subst. apply Hnothing; auto.
  - inversion H; subst. apply Hnothing; auto.
  - inversion H; subst. apply Hnothing; auto.
Qed.

(** X9. Whatever the event, a call that returns has returned 0 or
    [EINVAL]; it has sent at most one probe, and none unless it returns 0;
    it has thrown at most two events, each to the caller of the instance
    and with the data of the event handled, and on anything but a
    [PROBE_REPLY] only [TRACEROUTE_MAX_TTL_REACHED]; and it has not set
    [errno] unless the event is [ALGORITHM_INIT]. *)
Theorem call_footprint event (opts : option traceroute_options_t) w ret w' :
  handler event opts w = Returns ret w' ->
  let caller := cur_instance_caller (loop w) in
  (ret = 0 \/ ret = EINVAL) /\
  cur_instance_caller (loop w') = caller /\
  (type event <> ALGORITHM_INIT -> errno w' = errno w) /\
  (exists sent,
     sendq (loop w') = sendq (loop w) ++ sent /\
     (length sent <= 1)%nat /\ (sent <> [] -> ret = 0)) /\
  (exists more,
     thrown (loop w') = thrown (loop w) ++ more /\
     (length more <= 2)%nat /\
     Forall (fun ie => fst ie = caller /\ target (snd ie) = caller /\
                       data (snd ie) = data event) more /\
     (type event <> PROBE_REPLY ->
      Forall (fun ie => type (snd ie) = TRACEROUTE_MAX_TTL_REACHED) more)).
Proof.
  intros H caller.
  destruct (handler_effects _ _ _ _ _ H) as (H1 & H2 & H3 & H4 & H5 & _).
  now split_and!.
Qed.

(** X10. No call releases or rewrites the state of another instance: a
    block that is allocated before a call is allocated after it, and but
    for the block [*pdata] designates it has the same content. *)
Theorem call_keeps_other_blocks event (opts : option traceroute_options_t)
  w ret w' l :
  handler event opts w = Returns ret w' ->
  is_Some (mem w !! l) ->
  is_Some (mem w' !! l) /\
  (pdata w <> Some l -> mem w' !! l = mem w !! l).
Proof.
  intros H Hl.
  destruct (handler_effects _ _ _ _ _ H) as (_ & _ & _ & _ & _ & Hm).
  destruct Hm as [-> | (l0 & d' & -> & Hl0)]; [auto |].
  destruct (decide (l0 = l)) as [-> | Hne].
  - rewrite lookup_insert_eq. split; [eauto |].
    intros Hp. destruct Hl0 as [Hnone | Hsome]; [| contradiction].
    rewrite Hnone in Hl. now destruct Hl.
  - now rewrite lookup_insert_ne.
Qed.

(** *** Replies and timeouts, up to the next probe *)

(** A reply or a timeout either takes one of the two [break]s, or reaches
    the block that sends the next probe, in a state [d1] and a world [w1]
    that differ from those it found as stated. *)
Lemma handler_continues event o w l d :
  type event = PROBE_REPLY \/ type event = PROBE_TIMEOUT ->
  pdata w = Some l ->
  mem w !! l = Some d ->
  num_probes o <> 0 ->
  readable probe_get_field o event ->
  let caller := cur_instance_caller (loop w) in
  (exists w' d',
     handler event (Some o) w = Returns 0 w' /\
     mem w' !! l = Some d' /\
     stops (type event) o d d' = true /\
     ttl d' = ttl d /\
     num_sent_probes d' = num_sent_probes d /\
     pdata w' = pdata w /\
     sendq (loop w') = sendq (loop w) /\
     thrown (loop w') =
       thrown (loop w) ++ forwarded event w
       ++ match type event with
          | PROBE_REPLY =>
              [(caller,
                event_create TRACEROUTE_DESTINATION_REACHED (data event) caller)]
          | _ => []
          end) \/
  (exists d1 w1,
     handler event (Some o) w = next_probe event o l d1 w1 /\
     (forall d', destination_reached d' = destination_reached d1 ->
                 num_undiscovered d' = num_undiscovered d1 ->
                 stops (type event) o d d' = false) /\
     mem w1 = mem w /\ pdata w1 = pdata w /\ errno w1 = errno w /\
     probe_skel w1 = probe_skel w /\
     sendq (loop w1) = sendq (loop w) /\
     cur_instance_caller (loop w1) = caller /\
     thrown (loop w1) = thrown (loop w) ++ forwarded event w /\
     num_sent_probes d1 = num_sent_probes d /\
     ttl d1 = (if hop_boundary d o then wrap ttl_bits (ttl d + 1) else ttl d) /\
     num_stars d1 =
       match type event with
       | PROBE_REPLY => 0
       | _ => wrap size_bits (num_stars d + 1)
       end).
Proof.
  intros Ht Hp Hd Hn Hr caller.
  destruct Ht as [Ht | Ht].
  - assert (exists pr b, data event = ReplyData pr /\
      destination_reached_check probe_get_field (dst_ip o) (reply pr) = Some b)
      as (pr & b & Hdata & Hb).
    { unfold readable in Hr. rewrite Ht in Hr.
      destruct (data event) as [| |pr]; try contradiction.
      destruct Hr as [b Hb]. eauto. }
    rewrite (handler_reply _ _ _ _ _ _ _ Ht Hdata Hp Hd Hn Hb).
    fold caller. unfold stops, forwarded. fold caller. rewrite Ht.
    destruct (hop_boundary d o) eqn:Hi.
    + destruct (destination_reached d || b) eqn:Hflag.
      * left. eexists _, (replied b d). split; [reflexivity |].
        cbn. rewrite lookup_insert_eq, Hflag, <- app_assoc. now split_and!.
      * right. eexists _, _. split; [reflexivity |].
        cbn. split_and!; auto.
        intros d' -> _. exact Hflag.
    + right. eexists _, _. split; [reflexivity |]. cbn. split_and!; auto.
  - rewrite (handler_timeout _ _ _ _ _ Ht Hp Hd Hn).
    unfold stops, forwarded. rewrite Ht.
    assert (Hsame : num_sent_probes (hop_closed size_bits o d)
                    = num_sent_probes d /\
                    num_stars (hop_closed size_bits o d)
                    = wrap size_bits (num_stars d + 1) /\
                    ttl (hop_closed size_bits o d) = ttl d).
    { unfold hop_closed. now destruct (_ =? _). }
    destruct Hsame as (Hsent & Hstars & Hsame).
    destruct (hop_boundary d o) eqn:Hi.
    + destruct (num_undiscovered (hop_closed size_bits o d) =? 3) eqn:Hu.
      * left. eexists _, (hop_closed size_bits o d). split; [reflexivity |].
        cbn. rewrite lookup_insert_eq, Hu, !app_nil_r. split_and!; auto.
      * right. eexists _, _. split; [reflexivity |].
        cbn. rewrite app_nil_r. split_and!; auto.
        intros d' _ ->. exact Hu.
    + right. eexists _, _. split; [reflexivity |].
      cbn. rewrite app_nil_r. split_and!; auto.
Qed.

(** X11. A failed send is not undone.  When a reply or a timeout gets as
    far as the next probe and the ttl of the skeleton cannot be set, the
    handler returns [EINVAL] with no probe sent and [num_sent_probes] as
    before; but the reply has been forwarded, [ttl] has moved to the next
    hop on a hop boundary, and [num_stars] has been reset or
    incremented. *)
Theorem failed_send_keeps_updates event o w l d :
  type event = PROBE_REPLY \/ type event = PROBE_TIMEOUT ->
  pdata w = Some l ->
  mem w !! l = Some d ->
  num_probes o <> 0 ->
  readable probe_get_field o event ->
  exists ret w' d',
    handler event (Some o) w = Returns ret w' /\
    mem w' !! l = Some d' /\
    (stops (type event) o d d' = false ->
     ttl d' <= max_ttl o ->
     forall rc skel,
       probe_set_fields (probe_skel w) (I8 "ttl" (to_uint8 (ttl d')))
       = (rc, skel) ->
       rc <> 0 ->
       ret = EINVAL /\
       sendq (loop w') = sendq (loop w) /\
       num_sent_probes d' = num_sent_probes d /\
       thrown (loop w') = thrown (loop w) ++ forwarded event w /\
       ttl d' = (if hop_boundary d o then wrap ttl_bits (ttl d + 1) else ttl d) /\
       num_stars d' =
         match type event with
         | PROBE_REPLY => 0
         | _ => wrap size_bits (num_stars d + 1)
         end).
Proof.
  intros Ht Hp Hd Hn Hr.
  destruct (handler_continues _ _ _ _ _ Ht Hp Hd Hn Hr)
    as [(w' & d' & -> & Hd' & Hstop & _) |
        (d1 & w1 & -> & _ & Hm & _ & _ & Hs & Hq & _ & Hth & Hsent & Httl & Hst)].
  - exists 0, w', d'. split_and!; auto. rewrite Hstop. discriminate.
  - destruct (next_probe_cases event o l d1 w1)
      as (ret & w' & d' & -> & _ & Hm' & Ht' & _ & Hs' & _ & _ & Hsend).
    exists ret, w', d'. split; [reflexivity |].
    split; [rewrite Hm'; apply lookup_insert_eq |].
    intros _ Hle rc skel Hset Hrc.
    rewrite Ht' in Hle, Hset. rewrite <- Hs in Hset.
    destruct (Hsend Hle) as (Hth' & Hcases).
    destruct (Hcases rc skel Hset) as [_ Hko].
    destruct (Hko Hrc) as (-> & Hq' & Hn').
    rewrite Hq', Hn', Hth', Ht', Hs', Hq, Hth, Hsent, Httl, Hst. now split_and!.
Qed.

(** X12. A timeout does not look at [destination_reached]: with the flag
    set or not, the handler returns having thrown nothing or
    [TRACEROUTE_MAX_TTL_REACHED] alone, never
    [TRACEROUTE_DESTINATION_REACHED], and the flag is as before. *)
Theorem timeout_ignores_destination_reached event o w l d :
  type event = PROBE_TIMEOUT ->
  pdata w = Some l ->
  mem w !! l = Some d ->
  num_probes o <> 0 ->
  let caller := cur_instance_caller (loop w) in
  exists ret w' d',
    handler event (Some o) w = Returns ret w' /\
    mem w' !! l = Some d' /\
    destination_reached d' = destination_reached d /\
    (thrown (loop w') = thrown (loop w) \/
     thrown (loop w') =
       thrown (loop w)
       ++ [(caller,
            event_create TRACEROUTE_MAX_TTL_REACHED (data event) caller)]).
Proof.
  intros Ht Hp Hd Hn caller.
  rewrite (handler_timeout _ _ _ _ _ Ht Hp Hd Hn).
  assert (Hfl : destination_reached (hop_closed size_bits o d)
                = destination_reached d).
  { unfold hop_closed. now destruct (_ =? _). }
  assert (Hnext : forall d1,
    destination_reached d1 = destination_reached d ->
    exists ret w' d',
      next_probe event o l d1 w = Returns ret w' /\
      mem w' !! l = Some d' /\
      destination_reached d' = destination_reached d /\
      (thrown (loop w') = thrown (loop w) \/
       thrown (loop w') =
         thrown (loop w)
         ++ [(caller,
              event_create TRACEROUTE_MAX_TTL_REACHED (data event) caller)])).
  { intros d1 Hd1.
    destruct (next_probe_footprint event o l d1 w)
      as (ret & w' & d' & sent & more & -> & _ & _ & _ & _ & Hm & Hfl' & _
          & _ & _ & Hth & Hmore).
    exists ret, w', d'. split; [reflexivity |].
    rewrite Hm, lookup_insert_eq, Hfl', Hth. split_and!; auto.
    destruct Hmore as [-> | ->]; [left; apply app_nil_r | right; reflexivity]. }
  destruct (hop_boundary d o); [| now apply Hnext].
  destruct (_ =? 3); [| now apply Hnext].
  eexists _, _, (hop_closed size_bits o d). split; [reflexivity |].
  cbn. rewrite lookup_insert_eq. auto.
Qed.

(** X13. When [max_ttl] is at least the largest value of the type of
    [data->ttl], the test [ttl > max_ttl] never holds: a reply or a
    timeout leaves [ttl] within the type, wrapping to 0 after the largest
    value, and throws no [TRACEROUTE_MAX_TTL_REACHED]. *)
Theorem max_ttl_is_never_reached event o w l d :
  type event = PROBE_REPLY \/ type event = PROBE_TIMEOUT ->
  pdata w = Some l ->
  mem w !! l = Some d ->
  num_probes o <> 0 ->
  readable probe_get_field o event ->
  0 <= ttl d < 2 ^ Z.pos ttl_bits ->
  2 ^ Z.pos ttl_bits - 1 <= max_ttl o ->
  exists ret w' d' more,
    handler event (Some o) w = Returns ret w' /\
    mem w' !! l = Some d' /\
    0 <= ttl d' < 2 ^ Z.pos ttl_bits /\
    (hop_boundary d o = true -> ttl d = 2 ^ Z.pos ttl_bits - 1 ->
     stops (type event) o d d' = false -> ttl d' = 0) /\
    thrown (loop w') = thrown (loop w) ++ more /\
    Forall (fun ie => type (snd ie) <> TRACEROUTE_MAX_TTL_REACHED) more.
Proof.
  intros Ht Hp Hd Hn Hr Hrange Hmax.
  assert (Hfw : Forall (fun ie : instance_t * @event_t probe_t =>
                          type (snd ie) <> TRACEROUTE_MAX_TTL_REACHED)
                  (forwarded event w)).
  { unfold forwarded. destruct (type event); repeat constructor; discriminate. }
  destruct (handler_continues _ _ _ _ _ Ht Hp Hd Hn Hr)
    as [(w' & d' & -> & Hd' & Hstop & Httl & _ & _ & _ & Hth) |
        (d1 & w1 & -> & _ & Hm & _ & _ & _ & _ & _ & Hth & _ & Httl & _)].
  - eexists 0, w', d', _. split_and!; eauto; try lia.
    + rewrite Hstop. discriminate.
    + apply Forall_app. split; [exact Hfw |].
      destruct (type event); repeat constructor; discriminate.
  - assert (Hr1 : 0 <= ttl d1 < 2 ^ Z.pos ttl_bits).
    { rewrite Httl. destruct (hop_boundary d o); [apply wrap_range | lia]. }
    destruct (next_probe_cases event o l d1 w1)
      as (ret & w' & d' & -> & _ & Hm' & Ht' & _ & _ & _ & _ & Hsend).
    exists ret, w', d', (forwarded event w). split; [reflexivity |].
    rewrite Hm', lookup_insert_eq, Ht'.
    destruct Hsend as (Hth' & _); [lia |].
    rewrite Hth', Hth. split_and!; auto; try lia.
    intros Hi Hlast _. rewrite Httl, Hi, Hlast. unfold wrap.
    replace (2 ^ Z.pos ttl_bits - 1 + 1) with (2 ^ Z.pos ttl_bits) by lia.
    apply Z.mod_same. lia.
Qed.

(** X14. [ALGORITHM_INIT] does not look at [*pdata]: delivered to an
    instance that has a state already, it allocates another block and
    stores it in the slot, and the former state stays in the heap with
    nothing left to designate it. *)
Theorem second_init_leaks_first_state event o w l d skel :
  type event = ALGORITHM_INIT ->
  min_ttl o < max_ttl o ->
  malloc_fails (mem w) = false ->
  probe_set_fields (probe_skel w)
    (I8 "ttl" (to_uint8 (wrap ttl_bits (min_ttl o)))) = (0, skel) ->
  pdata w = Some l ->
  mem w !! l = Some d ->
  exists l' w',
    handler event (Some o) w = Returns 0 w' /\
    pdata w' = Some l' /\
    l' <> l /\
    mem w' !! l = Some d /\
    mem w' !! l' =
      Some (set_num_sent_probes 1
              (set_ttl (wrap ttl_bits (min_ttl o)) zero_data)).
Proof.
  intros Ht Hlt Hm Hset Hp Hd.
  rewrite (handler_init _ _ _ Ht Hlt), Hm. cbn zeta.
  cbn [ttl set_ttl zero_data]. rewrite Hset. cbn [Z.eqb].
  assert (Hne : fresh (dom (mem w)) <> l).
  { intros E. apply (is_fresh (dom (mem w))). rewrite E.
    apply elem_of_dom. eauto. }
  eexists _, _. split; [reflexivity |]. cbn.
  rewrite lookup_insert_eq, !lookup_insert_ne by assumption. auto.
Qed.

(** *** Runs of replies and timeouts *)

Lemma timeout_step event o w l d :
  type event = PROBE_TIMEOUT ->
  pdata w = Some l ->
  mem w !! l = Some d ->
  num_probes o <> 0 ->
  exists ret w' d',
    handler event (Some o) w = Returns ret w' /\
    pdata w' = Some l /\
    mem w' !! l = Some d' /\
    num_stars d' = wrap size_bits (num_stars d + 1) /\
    num_undiscovered d' =
      (if hop_boundary d o && (wrap size_bits (num_stars d + 1) =? num_probes o)
       then wrap size_bits (num_undiscovered d + 1)
       else num_undiscovered d).
Proof.
  intros Ht Hp Hd Hn.
  rewrite (handler_timeout _ _ _ _ _ Ht Hp Hd Hn).
  assert (Hc : num_stars (hop_closed size_bits o d)
               = wrap size_bits (num_stars d + 1) /\
               num_undiscovered (hop_closed size_bits o d) =
               if wrap size_bits (num_stars d + 1) =? num_probes o
               then wrap size_bits (num_undiscovered d + 1)
               else num_undiscovered d).
  { unfold hop_closed. cbn [starred num_stars set_num_stars].
    now destruct (_ =? _). }
  destruct Hc as [Hs Hu].
  assert (Hnext : forall d1,
    num_stars d1 = wrap size_bits (num_stars d + 1) ->
    exists ret w' d',
      next_probe event o l d1 w = Returns ret w' /\ pdata w' = Some l /\
      mem w' !! l = Some d' /\
      num_stars d' = wrap size_bits (num_stars d + 1) /\
      num_undiscovered d' = num_undiscovered d1).
  { intros d1 H1.
    destruct (next_probe_cases event o l d1 w)
      as (ret & w' & d' & -> & Hp' & Hm & _ & _ & Hs' & Hu' & _).
    exists ret, w', d'. rewrite Hp', Hm, lookup_insert_eq, Hs', Hu', H1. auto. }
  destruct (hop_boundary d o); cbn [andb].
  - destruct (_ =? 3).
    + eexists _, _, (hop_closed size_bits o d). split; [reflexivity |].
      cbn. rewrite lookup_insert_eq. auto.
    + destruct (Hnext (set_ttl (wrap ttl_bits (ttl d + 1))
                         (hop_closed size_bits o d)) Hs)
        as (ret & w' & d' & E & H1 & H2 & H3 & H4).
      exists ret, w', d'. rewrite H4. cbn. auto.
  - destruct (Hnext (starred size_bits d) eq_refl)
      as (ret & w' & d' & E & H1 & H2 & H3 & H4).
    exists ret, w', d'. rewrite H4. auto.
Qed.

Lemma timeouts_count events o :
  Forall (fun e : @event_t probe_t => type e = PROBE_TIMEOUT) events ->
  num_probes o <> 0 ->
  forall w l d,
    pdata w = Some l ->
    mem w !! l = Some d ->
    0 <= num_stars d ->
    num_stars d + Z.of_nat (length events) < 2 ^ Z.pos size_bits ->
    num_undiscovered d = 0 \/
    (num_undiscovered d = 1 /\ num_probes o <= num_stars d) ->
    exists w' d',
      run events (Some o) w = Some w' /\
      pdata w' = Some l /\
      mem w' !! l = Some d' /\
      num_stars d' = num_stars d + Z.of_nat (length events) /\
      (num_undiscovered d' = 0 \/
       (num_undiscovered d' = 1 /\ num_probes o <= num_stars d')).
Proof.
  intros Hall Hn.
  induction Hall as [| e events Ht _ IH]; intros w l d Hp Hd H0 Hlen Hu.
  - exists w, d. cbn. split_and!; auto. lia.
  - cbn [length] in Hlen. rewrite Nat2Z.inj_succ in Hlen.
    destruct (timeout_step _ _ _ _ _ Ht Hp Hd Hn)
      as (ret & w1 & d1 & E & Hp1 & Hd1 & Hs1 & Hu1).
    rewrite wrap_small in Hs1, Hu1 by lia.
    destruct (IH w1 l d1 Hp1 Hd1) as (w' & d' & Hrun & Hp' & Hd' & Hs' & Hu');
      try lia.
    + rewrite Hu1, Hs1.
      destruct (hop_boundary d o); cbn [andb].
      * destruct (Z.eqb_spec (num_stars d + 1) (num_probes o)) as [Heq | Hne].
        -- destruct Hu as [-> | [_ Hge]]; [| lia].
           right. rewrite wrap_one. lia.
        -- destruct Hu as [-> | [-> Hge]]; [auto | right; lia].
      * destruct Hu as [-> | [-> Hge]]; [auto | right; lia].
    + exists w', d'. cbn [deliver length]. rewrite E, Nat2Z.inj_succ.
      split_and!; auto. lia.
Qed.

(** X15. After a reply, or after [ALGORITHM_INIT], [num_stars] and
    [num_undiscovered] are 0.  From there, however many timeouts follow
    one another, short of the range of the counter, every one of them is
    handled, [num_stars] counts them all, since a hop boundary does not
    reset it, and [num_undiscovered] is never more than 1: the test
    [num_undiscovered == 3] never holds and the gap never stops the
    instance. *)
Theorem timeouts_never_stop_on_a_gap (events : list (@event_t probe_t)) o w l d :
  Forall (fun e => type e = PROBE_TIMEOUT) events ->
  pdata w = Some l ->
  mem w !! l = Some d ->
  num_probes o <> 0 ->
  num_stars d = 0 ->
  num_undiscovered d = 0 ->
  Z.of_nat (length events) < 2 ^ Z.pos size_bits ->
  exists w' d',
    run events (Some o) w = Some w' /\
    pdata w' = Some l /\
    mem w' !! l = Some d' /\
    num_stars d' = Z.of_nat (length events) /\
    0 <= num_undiscovered d' <= 1.
Proof.
  intros Hall Hp Hd Hn Hs Hu Hlen.
  assert (H0 : 0 <= num_stars d) by lia.
  assert (H1 : num_stars d + Z.of_nat (length events) < 2 ^ Z.pos size_bits)
    by lia.
  destruct (timeouts_count events o Hall Hn w l d Hp Hd H0 H1 (or_introl Hu))
    as (w' & d' & Hrun & Hp' & Hd' & Hs' & Hu').
  exists w', d'. rewrite Hs', Hs. split_and!; auto; lia.
Qed.

Lemma returns_is_defined event o w ret w' :
  type event = PROBE_REPLY \/ type event = PROBE_TIMEOUT ->
  handler event (Some o) w = Returns ret w' ->
  num_probes o <> 0 /\ readable probe_get_field o event.
Proof.
  intros Ht H. unfold traceroute_handler in H. unfold readable.
  destruct Ht as [Ht | Ht]; rewrite Ht in *.
  - destruct (pdata w) as [l |]; [| discriminate].
    destruct (mem w !! l) as [d |]; [| discriminate].
    destruct (data event) as [| | pr]; try discriminate.
    destruct (Z.eqb_spec (num_probes o) 0); [discriminate |].
    destruct (destination_reached_check _ _ _); [eauto | discriminate].
  - destruct (pdata w) as [l |]; [| discriminate].
    destruct (mem w !! l) as [d |]; [| discriminate].
    destruct (Z.eqb_spec (num_probes o) 0); [discriminate |].
    destruct (data event); auto.
Qed.

Lemma step_counts_probes event o w l d ret w' :
  type event = PROBE_REPLY \/ type event = PROBE_TIMEOUT ->
  pdata w = Some l ->
  mem w !! l = Some d ->
  0 <= num_sent_probes d < 2 ^ Z.pos size_bits ->
  handler event (Some o) w = Returns ret w' ->
  exists d' sent,
    pdata w' = Some l /\
    mem w' !! l = Some d' /\
    sendq (loop w') = sendq (loop w) ++ sent /\
    num_sent_probes d' =
      wrap size_bits (num_sent_probes d + Z.of_nat (length sent)).
Proof.
  intros Ht Hp Hd Hrange H.
  destruct (returns_is_defined _ _ _ _ _ Ht H) as [Hn Hr].
  assert (Hsame : wrap size_bits (num_sent_probes d + 0) = num_sent_probes d).
  { rewrite Z.add_0_r. now apply wrap_small. }
  destruct (handler_continues _ _ _ _ _ Ht Hp Hd Hn Hr)
    as [(w0 & d' & E & Hd' & _ & _ & Hsent & Hp' & Hq & _) |
        (d1 & w1 & E & _ & Hm & Hp1 & _ & Hs & Hq & _ & _ & Hsent & _)];
    rewrite E in H.
  - inversion H; subst ret w0. exists d', [].
    rewrite Hp', Hq, Hsent, app_nil_r. auto.
  - destruct (next_probe_cases event o l d1 w1)
      as (ret0 & w0 & d' & E' & Hp' & Hm' & _ & _ & _ & _ & Hmax & Hsend).
    rewrite E' in H. inversion H; subst ret0 w0.
    assert (Hd' : mem w' !! l = Some d')
      by (rewrite Hm'; apply lookup_insert_eq).
    destruct (Z.gtb_spec (ttl d1) (max_ttl o)) as [Hgt | Hle].
    + destruct Hmax as (_ & Hq' & _ & Hn'); [lia |].
      exists d', []. rewrite Hp', Hp1, Hq', Hq, Hn', Hsent, app_nil_r. auto.
    + destruct Hsend as (_ & Hcases); [lia |].
      destruct (probe_set_fields (probe_skel w1) (I8 "ttl" (to_uint8 (ttl d1))))
        as [rc skel] eqn:Hset.
      destruct (Hcases rc skel eq_refl) as [Hok Hko].
      destruct (Z.eq_dec rc 0) as [Hrc | Hrc].
      * destruct (Hok Hrc) as (_ & Hq' & Hn'). exists d', [skel].
        rewrite Hp', Hp1, Hq', Hq, Hn', Hsent. auto.
      * destruct (Hko Hrc) as (_ & Hq' & Hn'). exists d', [].
        rewrite Hp', Hp1, Hq', Hq, Hn', Hsent, app_nil_r. auto.
Qed.

(** X16. [num_sent_probes] counts the probes handed to the loop: over
    any run of replies and timeouts, whatever each call returns, the
    counter grows, in its type, by the number of probes the run has
    sent.  This is what makes [num_sent_probes % num_probes] tell a hop
    boundary. *)
Theorem num_sent_probes_counts_probes (events : list (@event_t probe_t))
  o w w' l d :
  Forall (fun e => type e = PROBE_REPLY \/ type e = PROBE_TIMEOUT) events ->
  pdata w = Some l ->
  mem w !! l = Some d ->
  0 <= num_sent_probes d < 2 ^ Z.pos size_bits ->
  run events (Some o) w = Some w' ->
  exists d' sent,
    pdata w' = Some l /\
    mem w' !! l = Some d' /\
    sendq (loop w') = sendq (loop w) ++ sent /\
    num_sent_probes d' =
      wrap size_bits (num_sent_probes d + Z.of_nat (length sent)).
Proof.
  intros Hall. revert w d.
  induction Hall as [| e events Ht _ IH]; intros w d Hp Hd Hrange Hrun.
  - inversion Hrun; subst w'. exists d, [].
    rewrite app_nil_r. cbn. rewrite Z.add_0_r, wrap_small; auto.
  - cbn [deliver] in Hrun.
    destruct (handler e (Some o) w) as [ret w1 |] eqn:E; [| discriminate].
    destruct (step_counts_probes _ _ _ _ _ _ _ Ht Hp Hd Hrange E)
      as (d1 & sent1 & Hp1 & Hd1 & Hq1 & Hn1).
    assert (Hrange1 : 0 <= num_sent_probes d1 < 2 ^ Z.pos size_bits)
      by (rewrite Hn1; apply wrap_range).
    destruct (IH w1 d1 Hp1 Hd1 Hrange1 Hrun)
      as (d' & sent2 & Hp' & Hd' & Hq' & Hn').
    exists d', (sent1 ++ sent2).
    rewrite Hq', Hq1, Hn', Hn1, <- app_assoc, length_app, Nat2Z.inj_add.
    split_and!; auto. unfold wrap.
    rewrite Zplus_mod_idemp_l. f_equal. lia.
Qed.

(** *** The hops, one after the other *)

Lemma div_step (s np : Z) :
  0 < np ->
  s / np - (s - 1) / np = if s mod np =? 0 then 1 else 0.
Proof.
  intros Hnp. destruct (Z.eqb_spec (s mod np) 0) as [H | H];
    Z.div_mod_to_equations; nia.
Qed.

Lemma hop_boundary_mod d o :
  0 <= num_sent_probes d ->
  0 < num_probes o ->
  hop_boundary d o = (num_sent_probes d mod num_probes o =? 0).
Proof.
  intros Hs Hn. unfold hop_boundary. now rewrite Z.rem_mod_nonneg by lia.
Qed.

(** One reply that does not come from the destination, or one timeout,
    when the skeleton always takes its ttl and nothing overflows. *)
Lemma hop_step event o w l d :
  (forall p t, fst (probe_set_fields p (I8 "ttl" t)) = 0) ->
  pdata w = Some l ->
  mem w !! l = Some d ->
  0 < num_probes o ->
  type event = PROBE_TIMEOUT \/
  (type event = PROBE_REPLY /\
   exists pr, data event = ReplyData pr /\
     destination_reached_check probe_get_field (dst_ip o) (reply pr)
     = Some false) ->
  destination_reached d = false ->
  0 <= num_sent_probes d ->
  num_sent_probes d + 1 < 2 ^ Z.pos size_bits ->
  0 <= num_stars d ->
  num_stars d + 1 < 2 ^ Z.pos size_bits ->
  num_undiscovered d = 0 \/
  (num_undiscovered d = 1 /\ num_probes o <= num_stars d) ->
  0 <= ttl d ->
  ttl d + (if hop_boundary d o then 1 else 0) <= max_ttl o ->
  ttl d + (if hop_boundary d o then 1 else 0) < 2 ^ Z.pos ttl_bits ->
  let p :=
    snd (probe_set_fields (probe_skel w)
           (I8 "ttl" (to_uint8 (ttl d + (if hop_boundary d o then 1 else 0)))))
  in
  exists w' d',
    handler event (Some o) w = Returns 0 w' /\
    pdata w' = Some l /\
    mem w' !! l = Some d' /\
    destination_reached d' = false /\
    num_sent_probes d' = num_sent_probes d + 1 /\
    ttl d' = ttl d + (if hop_boundary d o then 1 else 0) /\
    0 <= num_stars d' <= num_stars d + 1 /\
    (num_undiscovered d' = 0 \/
     (num_undiscovered d' = 1 /\ num_probes o <= num_stars d')) /\
    sendq (loop w') = sendq (loop w) ++ [p] /\
    probe_skel w' = p /\
    thrown (loop w') = thrown (loop w) ++ forwarded event w.
Proof.
  intros Hset Hp Hd Hn Hev Hfl Hs0 Hs1 Hst0 Hst1 Hu Ht0 Hmax Hfit p.
  assert (Hn' : num_probes o <> 0) by lia.
  assert (Hsend : forall d1 w1,
    ttl d1 = ttl d + (if hop_boundary d o then 1 else 0) ->
    num_sent_probes d1 = num_sent_probes d ->
    probe_skel w1 = probe_skel w ->
    next_probe event o l d1 w1 =
      Returns 0
        (store l (set_num_sent_probes (num_sent_probes d + 1) d1)
           (pt_send_probe (set_probe_skel p w1) p))).
  { intros d1 w1 Ht1 Hs Hsk.
    destruct (probe_set_fields (probe_skel w1) (I8 "ttl" (to_uint8 (ttl d1))))
      as [rc skel] eqn:E.
    pose proof (Hset (probe_skel w1) (to_uint8 (ttl d1))) as Hrc.
    rewrite E in Hrc. cbn in Hrc. subst rc.
    rewrite (next_probe_sent _ _ _ _ _ skel) by (lia || assumption).
    rewrite Hs, wrap_small by lia.
    unfold p. rewrite <- Hsk, <- Ht1, E. reflexivity. }
  destruct Hev as [Ht | (Ht & pr & Hdata & Hb)].
  - rewrite (handler_timeout _ _ _ _ _ Ht Hp Hd Hn').
    assert (Hc : num_stars (hop_closed size_bits o d) = num_stars d + 1 /\
                 num_undiscovered (hop_closed size_bits o d) =
                   (if num_stars d + 1 =? num_probes o
                    then wrap size_bits (num_undiscovered d + 1)
                    else num_undiscovered d) /\
                 ttl (hop_closed size_bits o d) = ttl d /\
                 num_sent_probes (hop_closed size_bits o d) = num_sent_probes d /\
                 destination_reached (hop_closed size_bits o d)
                 = destination_reached d).
    { unfold hop_closed. cbn [starred num_stars set_num_stars].
      rewrite (wrap_small size_bits (num_stars d + 1)) by lia.
      destruct (_ =? _); unfold starred; cbn;
        rewrite (wrap_small size_bits (num_stars d + 1)) by lia; auto. }
    destruct Hc as (Hc1 & Hc2 & Hc3 & Hc4 & Hc5).
    assert (Hinv : num_undiscovered (hop_closed size_bits o d) = 0 \/
                   (num_undiscovered (hop_closed size_bits o d) = 1 /\
                    num_probes o <= num_stars d + 1)).
    { rewrite Hc2.
      destruct (Z.eqb_spec (num_stars d + 1) (num_probes o)) as [Heq | Hne].
      - destruct Hu as [-> | [_ Hge]]; [| lia]. right. rewrite wrap_one. lia.
      - destruct Hu as [-> | [-> Hge]]; [auto | right; lia]. }
    unfold forwarded. rewrite Ht, app_nil_r.
    destruct (hop_boundary d o) eqn:Hi.
    + destruct (Z.eqb_spec (num_undiscovered (hop_closed size_bits o d)) 3)
        as [H3 | _]; [lia |].
      rewrite (wrap_small ttl_bits (ttl d + 1)) by lia.
      rewrite (Hsend (set_ttl (ttl d + 1) (hop_closed size_bits o d)) w)
        by auto.
      eexists _, _. split; [reflexivity |]. split; [exact Hp |].
      split; [cbn; apply lookup_insert_eq |].
      cbn. rewrite Hc1, Hc5. split_and!; auto; lia.
    + rewrite (Hsend (starred size_bits d) w) by (cbn; auto; lia).
      eexists _, _. split; [reflexivity |]. split; [exact Hp |].
      split; [cbn; apply lookup_insert_eq |].
      cbn. rewrite wrap_small by lia.
      split_and!; auto; try lia.
  - rewrite (handler_reply _ _ _ _ _ _ _ Ht Hdata Hp Hd Hn' Hb).
    unfold forwarded. rewrite Ht, Hfl. cbn [orb].
    set (w1 := pt_algorithm_throw _ _ _).
    destruct (hop_boundary d o) eqn:Hi.
    + rewrite (wrap_small ttl_bits (ttl d + 1)) by lia.
      rewrite (Hsend (set_ttl (ttl d + 1) (replied false d)) w1) by auto.
      eexists _, _. split; [reflexivity |]. split; [exact Hp |].
      split; [cbn; apply lookup_insert_eq |].
      cbn. rewrite Hfl. split_and!; auto; lia.
    + rewrite (Hsend (replied false d) w1) by (cbn; auto; lia).
      eexists _, _. split; [reflexivity |]. split; [exact Hp |].
      split; [cbn; apply lookup_insert_eq |].
      cbn. rewrite Hfl. split_and!; auto; lia.
Qed.

Lemma length_sent_with (skel : probe_t) (ttls : list Z) :
  length (sent_with probe_set_fields skel ttls) = length ttls.
Proof.
  revert skel. induction ttls as [| t ttls IH]; intros skel; cbn; [reflexivity |].
  now rewrite IH.
Qed.

Lemma hops_run events o :
  (forall p t, fst (probe_set_fields p (I8 "ttl" t)) = 0) ->
  0 < num_probes o ->
  Forall (fun e : @event_t probe_t =>
            type e = PROBE_TIMEOUT \/
            (type e = PROBE_REPLY /\
             exists pr, data e = ReplyData pr /\
               destination_reached_check probe_get_field (dst_ip o) (reply pr)
               = Some false)) events ->
  forall w l d,
    pdata w = Some l ->
    mem w !! l = Some d ->
    destination_reached d = false ->
    let n := Z.of_nat (length events) in
    let hops := (num_sent_probes d + n - 1) / num_probes o
                - (num_sent_probes d - 1) / num_probes o in
    0 <= num_sent_probes d ->
    num_sent_probes d + n < 2 ^ Z.pos size_bits ->
    0 <= num_stars d ->
    num_stars d + n < 2 ^ Z.pos size_bits ->
    num_undiscovered d = 0 \/
    (num_undiscovered d = 1 /\ num_probes o <= num_stars d) ->
    0 <= ttl d ->
    ttl d + hops <= max_ttl o ->
    ttl d + hops < 2 ^ Z.pos ttl_bits ->
    exists w' d' more,
      run events (Some o) w = Some w' /\
      pdata w' = Some l /\
      mem w' !! l = Some d' /\
      num_sent_probes d' = num_sent_probes d + n /\
      ttl d' = ttl d + hops /\
      sendq (loop w') =
        sendq (loop w)
        ++ sent_with probe_set_fields (probe_skel w)
             (map (fun j => ttl d
                            + ((num_sent_probes d + Z.of_nat j - 1)
                               / num_probes o
                               - (num_sent_probes d - 1) / num_probes o))
                  (seq 1 (length events))) /\
      thrown (loop w') = thrown (loop w) ++ more /\
      Forall (fun ie => type (snd ie) = TRACEROUTE_PROBE_REPLY) more.
Proof.
  intros Hset Hn Hall.
  induction Hall as [| e events He _ IH];
    intros w l d Hp Hd Hfl n hops Hs0 Hs1 Hst0 Hst1 Hu Ht0 Hmax Hfit.
  - exists w, d, []. subst hops n. cbn [length Z.of_nat] in *.
    cbn [seq map sent_with].
    rewrite !app_nil_r, Z.add_0_r, Z.sub_diag. cbn.
    split_and!; auto; lia.
  - subst n hops. cbn [length] in *. rewrite Nat2Z.inj_succ in *.
    set (n := Z.of_nat (length events)) in *.
    set (s := num_sent_probes d) in *.
    set (np := num_probes o) in *.
    assert (Hn0 : 0 <= n) by (unfold n; lia).
    assert (Hb : (if hop_boundary d o then 1 else 0) = s / np - (s - 1) / np).
    { rewrite hop_boundary_mod by assumption. fold s np.
      now rewrite div_step. }
    assert (Hmono : s / np <= (s + n) / np) by (apply Z.div_le_mono; lia).
    replace (s + Z.succ n - 1) with (s + n) in * by lia.
    assert (Hstep : ttl d + (if hop_boundary d o then 1 else 0)
                    <= ttl d + ((s + n) / np - (s - 1) / np)) by lia.
    destruct (hop_step e o w l d) as
      (w1 & d1 & E & Hp1 & Hd1 & Hfl1 & Hs' & Ht' & Hst' & Hu' & Hq1 & Hsk1
       & Hth1);
      auto; try lia.
    fold s in Hs'. rewrite Hb in Ht', Hq1, Hsk1.
    assert (Hh : (num_sent_probes d1 + n - 1) / np
                 - (num_sent_probes d1 - 1) / np
                 = (s + n) / np - s / np).
    { rewrite Hs'. replace (s + 1 + n - 1) with (s + n) by lia.
      now replace (s + 1 - 1) with s by lia. }
    assert (H01 : 0 <= s / np - (s - 1) / np <= 1)
      by (rewrite <- Hb; destruct (hop_boundary d o); lia).
    specialize (IH w1 l d1 Hp1 Hd1 Hfl1). cbv zeta in IH.
    fold n np in IH. rewrite Hh in IH.
    destruct IH
      as (w' & d' & more & Hrun & Hp' & Hd' & Hs2 & Ht2 & Hq & Hth & Hmore);
      [lia | lia | lia | lia | exact Hu' | lia | lia | lia |].
    exists w', d', (forwarded e w ++ more).
    cbn [deliver length]. rewrite E, Hrun.
    rewrite Hs2, Hs', Ht2, Ht', Hth, Hth1, <- !app_assoc.
    split_and!; auto; try lia.
    + rewrite Hq, Hq1, Hsk1, <- app_assoc. f_equal.
      cbn [seq map sent_with].
      rewrite <- (seq_shift (length events) 1), map_map.
      replace (s + Z.of_nat 1 - 1) with s by lia.
      cbn [app]. f_equal. f_equal.
      apply map_ext. intros j. rewrite Hs', Ht', Nat2Z.inj_succ.
      replace (s + Z.succ (Z.of_nat j) - 1) with (s + 1 + Z.of_nat j - 1) by lia.
      replace (s + 1 - 1) with s by lia. lia.
    + apply Forall_app. split; [| assumption].
      unfold forwarded.
      destruct He as [-> | [-> _]]; repeat constructor.
Qed.

(** X17. The hops are probed in turn.  From the state [ALGORITHM_INIT]
    leaves (one probe sent, nothing starred, destination not reached), let
    [n] events follow, each a timeout or a reply that is not from the
    destination, with a skeleton that always takes its ttl and no counter
    overflowing.  As long as [ttl + n / num_probes] does not exceed
    [max_ttl], the run sends exactly [n] probes, one for each event, and
    the [j]-th of them is the skeleton with its ttl set to
    [ttl + j / num_probes]: with the probe of [ALGORITHM_INIT], each ttl
    gets [num_probes] probes.  Only [TRACEROUTE_PROBE_REPLY] events are
    thrown, and in the end [num_sent_probes] is [n + 1] and [ttl] has
    advanced by [n / num_probes]. *)
Theorem hops_are_probed_in_turn (events : list (@event_t probe_t)) o w l d :
  (forall p t, fst (probe_set_fields p (I8 "ttl" t)) = 0) ->
  0 < num_probes o ->
  Forall (fun e =>
            type e = PROBE_TIMEOUT \/
            (type e = PROBE_REPLY /\
             exists pr, data e = ReplyData pr /\
               destination_reached_check probe_get_field (dst_ip o) (reply pr)
               = Some false)) events ->
  pdata w = Some l ->
  mem w !! l = Some d ->
  destination_reached d = false ->
  num_sent_probes d = 1 ->
  num_stars d = 0 ->
  num_undiscovered d = 0 ->
  0 <= ttl d ->
  let n := Z.of_nat (length events) in
  n + 1 < 2 ^ Z.pos size_bits ->
  ttl d + n / num_probes o <= max_ttl o ->
  ttl d + n / num_probes o < 2 ^ Z.pos ttl_bits ->
  let sent :=
    sent_with probe_set_fields (probe_skel w)
      (hop_ttls (ttl d) (num_probes o) (length events)) in
  exists w' d' more,
    run events (Some o) w = Some w' /\
    pdata w' = Some l /\
    mem w' !! l = Some d' /\
    num_sent_probes d' = n + 1 /\
    ttl d' = ttl d + n / num_probes o /\
    sendq (loop w') = sendq (loop w) ++ sent /\
    length sent = length events /\
    thrown (loop w') = thrown (loop w) ++ more /\
    Forall (fun ie => type (snd ie) = TRACEROUTE_PROBE_REPLY) more.
Proof.
  intros Hset Hn Hall Hp Hd Hfl Hs Hst Hu Ht0 n Hlen Hmax Hfit sent.
  assert (Hhops : (num_sent_probes d + n - 1) / num_probes o
                  - (num_sent_probes d - 1) / num_probes o
                  = n / num_probes o).
  { rewrite Hs. replace (1 + n - 1) with n by lia.
    replace (1 - 1) with 0 by lia. rewrite Z.div_0_l by lia. lia. }
  pose proof (hops_run events o Hset Hn Hall w l d Hp Hd Hfl) as Hrun.
  cbv zeta in Hrun. fold n in Hrun. rewrite Hhops in Hrun.
  destruct Hrun as (w' & d' & more & Hrun & Hp' & Hd' & Hs' & Ht' & Hq & Hrest);
    [lia | lia | lia | lia | auto | lia | lia | lia |].
  exists w', d', more.
  assert (Hsent : sent =
    sent_with probe_set_fields (probe_skel w)
      (map (fun j => ttl d
                     + ((num_sent_probes d + Z.of_nat j - 1) / num_probes o
                        - (num_sent_probes d - 1) / num_probes o))
           (seq 1 (length events)))).
  { unfold sent, hop_ttls. f_equal. apply map_ext. intros j.
    rewrite Hs. replace (1 + Z.of_nat j - 1) with (Z.of_nat j) by lia.
    replace (1 - 1) with 0 by lia. rewrite Z.div_0_l by lia. lia. }
  rewrite Hs', Ht', Hs, Hq, <- Hsent.
  split_and!; auto; try lia; try apply Hrest.
  unfold sent, hop_ttls.
  now rewrite length_sent_with, length_map, length_seq.
Qed.

End HandlerFacts.

(** ** The handler on the scenarios of the spec *)

Module Scenarios.
Import SimpleProbe.

(** C1. The gap-stop rule on scenario 3 of the spec (three probes per hop,
    [max_ttl = 30], the hops at ttl 1 and 2 answer, then every probe times
    out).  The ninth timeout in a row does not stop the instance: it sends
    one more probe, with ttl 6.  [num_stars] is never reset on a hop
    boundary, so it equals [num_probes] once only and [num_undiscovered]
    stays at 1; the instance goes on until the 84th timeout in a row,
    where [ttl] exceeds [max_ttl]. *)
Theorem gap_stop_does_not_fire :
  let o := options 1 30 3 "10.0.0.5" in
  (exists ret w9,
     handler timeout (Some o) (after (gap 8) o) = Returns ret w9 /\
     run (gap 8) (Some o) boot = Some (after (gap 8) o) /\
     sendq (loop w9) = sendq (loop (after (gap 8) o)) ++ [[I8 "ttl" 6]] /\
     mem w9 !! 1%positive =
       Some {| destination_reached := false; ttl := 6; num_sent_probes := 16;
               num_stars := 9; num_undiscovered := 1 |}) /\
  length (sendq (loop (after (gap 83) o))) = 90%nat /\
  thrown_types (after (gap 83) o) = repeat TRACEROUTE_PROBE_REPLY 6 /\
  length (sendq (loop (after (gap 84) o))) = 90%nat /\
  thrown_types (after (gap 84) o) =
    repeat TRACEROUTE_PROBE_REPLY 6 ++ [TRACEROUTE_MAX_TTL_REACHED] /\
  mem (after (gap 84) o) !! 1%positive =
    Some {| destination_reached := false; ttl := 31; num_sent_probes := 90;
            num_stars := 84; num_undiscovered := 1 |}.
Proof.
  intros o. split.
  - eexists _, _. split; [vm_compute; reflexivity |].
    split_and!; vm_compute; reflexivity.
  - split_and!; vm_compute; reflexivity.
Qed.

(** C8. [ALGORITHM_TERMINATED] after [ALGORITHM_INIT]: the handler returns
    0 and [*pdata] is NULL, but the state that [*pdata] designated is
    still allocated, with its content: nothing has been released. *)
Theorem terminated_leaks_state :
  let o := options 1 30 3 "10.0.0.5" in
  let state := {| destination_reached := false; ttl := 1; num_sent_probes := 1;
                  num_stars := 0; num_undiscovered := 0 |} in
  run [init] (Some o) boot = Some (after [init] o) /\
  pdata (after [init] o) = Some 1%positive /\
  mem (after [init] o) !! 1%positive = Some state /\
  exists w',
    handler terminated (Some o) (after [init] o) = Returns 0 w' /\
    pdata w' = None /\
    mem w' !! 1%positive = Some state /\
    mem w' = mem (after [init] o).
Proof.
  intros o state. split_and!; try (vm_compute; reflexivity).
  eexists. split; [vm_compute; reflexivity |].
  split_and!; vm_compute; reflexivity.
Qed.

(** Scenario 6 of the spec: [min_ttl = 10], [max_ttl = 5]. *)
Lemma init_rejects_invalid_options_witness :
  exists w',
    handler init (Some (options 10 5 3 "10.0.0.5")) boot = Returns EINVAL w' /\
    errno w' = EINVAL /\
    loop w' = loop boot /\
    pdata w' = pdata boot /\
    mem w' = mem boot /\
    probe_skel w' = probe_skel boot.
Proof.
  apply (init_rejects_invalid_options probe_set_fields probe_get_field 8 64
           malloc_succeeds init (Some (options 10 5 3 "10.0.0.5")) boot).
  - reflexivity.
  - right. exists (options 10 5 3 "10.0.0.5").
    split; [reflexivity | simpl; lia].
Defined.

Lemma init_sends_first_probe_witness :
  exists l w',
    handler init (Some (options 1 5 1 "10.0.0.5")) boot = Returns 0 w' /\
    mem boot !! l = None /\
    pdata w' = Some l /\
    mem w' = <[l := {| destination_reached := false; ttl := 1;
                       num_sent_probes := 1; num_stars := 0;
                       num_undiscovered := 0 |}]> (mem boot) /\
    sendq (loop w') = sendq (loop boot) ++ [[I8 "ttl" 1]] /\
    thrown (loop w') = thrown (loop boot) /\
    errno w' = errno boot.
Proof.
  apply (init_sends_first_probe probe_set_fields probe_get_field 8 64
           malloc_succeeds init (options 1 5 1 "10.0.0.5") boot [I8 "ttl" 1]).
  - reflexivity.
  - simpl; lia.
  - simpl; lia.
  - reflexivity.
  - reflexivity.
  - reflexivity.
Defined.

(** C7, as first stated, for every [min_ttl < max_ttl]: it fails at
    [min_ttl = 300], [max_ttl = 400].  [ALGORITHM_INIT] accepts these
    options and returns 0, but the ttl goes through the [uint8_t]
    parameter of [send_traceroute_probe], and the probe carries 44
    (300 modulo 256), not [min_ttl]; this is so whether [data->ttl] has 8
    bits, and holds 44, or 32 bits, and holds 300. *)
Lemma init_min_ttl_300_sends_44 :
  let o := options 300 400 3 "10.0.0.5" in
  min_ttl o < max_ttl o /\
  (exists w',
     handler init (Some o) boot = Returns 0 w' /\
     pdata w' = Some 1%positive /\
     mem w' !! 1%positive =
       Some {| destination_reached := false; ttl := 44; num_sent_probes := 1;
               num_stars := 0; num_undiscovered := 0 |} /\
     sent_ttls w' = [Some (I8 "ttl" 44)]) /\
  (exists w',
     traceroute_handler probe_set_fields probe_get_field 32 64 malloc_succeeds
       init (Some o) boot = Returns 0 w' /\
     pdata w' = Some 1%positive /\
     mem w' !! 1%positive =
       Some {| destination_reached := false; ttl := 300; num_sent_probes := 1;
               num_stars := 0; num_undiscovered := 0 |} /\
     sent_ttls w' = [Some (I8 "ttl" 44)]) /\
  ~ (exists l w' d,
       handler init (Some o) boot = Returns 0 w' /\
       pdata w' = Some l /\
       mem w' !! l = Some d /\
       ttl d = min_ttl o /\
       num_sent_probes d = 1 /\
       sent_ttls w' = [Some (I8 "ttl" (min_ttl o))]) /\
  ~ (exists l w' d,
       traceroute_handler probe_set_fields probe_get_field 32 64
         malloc_succeeds init (Some o) boot = Returns 0 w' /\
       pdata w' = Some l /\
       mem w' !! l = Some d /\
       ttl d = min_ttl o /\
       num_sent_probes d = 1 /\
       sent_ttls w' = [Some (I8 "ttl" (min_ttl o))]).
Proof.
  intros o. split; [simpl; lia |].
  split; [eexists; split; [vm_compute; reflexivity |];
          split_and!; vm_compute; reflexivity |].
  split; [eexists; split; [vm_compute; reflexivity |];
          split_and!; vm_compute; reflexivity |].
  split.
  - intros (l & w' & d & H & _ & _ & _ & _ & Hs).
    vm_compute in H. inversion H; subst w'. vm_compute in Hs. discriminate.
  - intros (l & w' & d & H & _ & _ & _ & _ & Hs).
    vm_compute in H. inversion H; subst w'. vm_compute in Hs. discriminate.
Qed.

(** The fifth reply of scenario 1, from the target. *)
Lemma reply_resets_and_forwards_witness :
  let o := options 1 5 1 "10.0.0.5" in
  let w := after four_hops o in
  let event := reply_from "10.0.0.5" in
  exists ret w' d' more,
    handler event (Some o) w = Returns ret w' /\
    pdata w' = Some 1%positive /\
    mem w' !! 1%positive = Some d' /\
    num_stars d' = 0 /\
    num_undiscovered d' = 0 /\
    thrown (loop w') =
      thrown (loop w)
      ++ (0%nat, event_create TRACEROUTE_PROBE_REPLY (data event) 0%nat)
      :: more /\
    destination_reached d' = false || String.eqb "10.0.0.5" "10.0.0.5" /\
    ("10.0.0.5" = "10.0.0.5" -> destination_reached d' = true).
Proof.
  intros o w event.
  apply (reply_resets_and_forwards probe_set_fields probe_get_field 8 64
           malloc_succeeds event o w 1%positive
           {| destination_reached := false; ttl := 5; num_sent_probes := 5;
              num_stars := 0; num_undiscovered := 0 |}
           {| probe := skeleton; reply := answer "10.0.0.5" |}
           {| key := "src_ip"; value := VString "10.0.0.5" |}
           "10.0.0.5" "10.0.0.5").
  - reflexivity.
  - reflexivity.
  - vm_compute; reflexivity.
  - vm_compute; reflexivity.
  - simpl; lia.
  - reflexivity.
  - reflexivity.
  - reflexivity.
Defined.

Lemma reply_at_hop_boundary_witness :
  let o := options 1 5 1 "10.0.0.5" in
  let w := after four_hops o in
  let event := reply_from "10.0.0.5" in
  exists w' d',
    handler event (Some o) w = Returns 0 w' /\
    mem w' !! 1%positive = Some d' /\
    destination_reached d' = true /\
    ttl d' = 5 /\
    num_sent_probes d' = 5 /\
    sendq (loop w') = sendq (loop w) /\
    thrown (loop w') =
      thrown (loop w)
      ++ [(0%nat, event_create TRACEROUTE_PROBE_REPLY (data event) 0%nat);
          (0%nat,
           event_create TRACEROUTE_DESTINATION_REACHED (data event) 0%nat)].
Proof.
  intros o w event.
  apply (reply_at_hop_boundary probe_set_fields probe_get_field 8 64
           malloc_succeeds event o w 1%positive
           {| destination_reached := false; ttl := 5; num_sent_probes := 5;
              num_stars := 0; num_undiscovered := 0 |}
           {| probe := skeleton; reply := answer "10.0.0.5" |}
           {| key := "src_ip"; value := VString "10.0.0.5" |}
           "10.0.0.5" "10.0.0.5").
  - reflexivity.
  - reflexivity.
  - vm_compute; reflexivity.
  - vm_compute; reflexivity.
  - simpl; lia.
  - reflexivity.
  - reflexivity.
  - reflexivity.
  - reflexivity.
  - reflexivity.
Defined.

(** The timeout of scenario 2: the probe at ttl 5 is not answered. *)
Lemma next_probe_or_max_ttl_witness :
  let o := options 1 5 1 "10.0.0.5" in
  let w := after four_hops o in
  let d := {| destination_reached := false; ttl := 5; num_sent_probes := 5;
              num_stars := 0; num_undiscovered := 0 |} in
  exists ret w' d',
    handler timeout (Some o) w = Returns ret w' /\
    mem w' !! 1%positive = Some d' /\
    (stops PROBE_TIMEOUT o d d' = false ->
     ttl d' = (if hop_boundary d o then wrap 8 (5 + 1) else 5) /\
     (ttl d' > 5 ->
      ret = 0 /\
      sendq (loop w') = sendq (loop w) /\
      thrown (loop w') =
        thrown (loop w) ++ forwarded timeout w
        ++ [(0%nat, event_create TRACEROUTE_MAX_TTL_REACHED (data timeout) 0%nat)] /\
      num_sent_probes d' = 5) /\
     (ttl d' <= 5 ->
      (0 <= 5 -> 5 <= 255 -> to_uint8 (ttl d') = ttl d') /\
      forall skel,
        probe_set_fields (probe_skel w) (I8 "ttl" (to_uint8 (ttl d')))
        = (0, skel) ->
        ret = 0 /\
        sendq (loop w') = sendq (loop w) ++ [skel] /\
        thrown (loop w') = thrown (loop w) ++ forwarded timeout w /\
        num_sent_probes d' = wrap 64 (5 + 1))).
Proof.
  intros o w d.
  apply (next_probe_or_max_ttl probe_set_fields probe_get_field 8 64
           malloc_succeeds timeout o w 1%positive d).
  - right; reflexivity.
  - vm_compute; reflexivity.
  - vm_compute; reflexivity.
  - simpl; lia.
  - exact I.
Defined.

Lemma timeout_counts_stars_witness :
  let o := options 1 5 1 "10.0.0.5" in
  let w := after four_hops o in
  let d := {| destination_reached := false; ttl := 5; num_sent_probes := 5;
              num_stars := 0; num_undiscovered := 0 |} in
  exists ret w' d',
    handler timeout (Some o) w = Returns ret w' /\
    pdata w' = Some 1%positive /\
    mem w' !! 1%positive = Some d' /\
    num_stars d' = wrap 64 (0 + 1) /\
    (hop_boundary d o = true ->
     num_undiscovered d' =
       (if num_stars d' =? 1 then wrap 64 (0 + 1) else 0) /\
     (num_undiscovered d' = 3 <->
      sendq (loop w') = sendq (loop w) /\
      thrown (loop w') = thrown (loop w)) /\
     (num_undiscovered d' = 3 ->
      ret = 0 /\ ttl d' = 5 /\ num_sent_probes d' = 5) /\
     (num_undiscovered d' <> 3 ->
      ret = 0 /\
      ttl d' = wrap 8 (5 + 1) /\
      (ttl d' > 5 ->
       sendq (loop w') = sendq (loop w) /\
       thrown (loop w') =
         thrown (loop w)
         ++ [(0%nat,
              event_create TRACEROUTE_MAX_TTL_REACHED (data timeout) 0%nat)]) /\
      (ttl d' <= 5 ->
       sendq (loop w') =
         sendq (loop w)
         ++ [snd (probe_set_fields (probe_skel w)
                    (I8 "ttl" (to_uint8 (ttl d'))))] /\
       thrown (loop w') = thrown (loop w)))) /\
    (hop_boundary d o = false ->
     num_undiscovered d' = 0 /\ ttl d' = 5).
Proof.
  intros o w d.
  apply (timeout_counts_stars probe_set_fields probe_get_field 8 64
           malloc_succeeds timeout o w 1%positive d).
  - reflexivity.
  - vm_compute; reflexivity.
  - vm_compute; reflexivity.
  - simpl; lia.
  - intros t. vm_compute. reflexivity.
Defined.

(** After scenario 1 the flag is set; a timeout, a reply from another
    hop, the end of the instance and a second [ALGORITHM_INIT] follow. *)
Lemma destination_reached_stays_set_witness :
  let o := options 1 5 1 "10.0.0.5" in
  let events := [timeout; reply_from "10.0.0.1"; terminated; init] in
  let w' := after (happy_path ++ events) o in
  (exists d', mem w' !! 1%positive = Some d' /\ destination_reached d' = true) /\
  (Forall (fun e => type e <> ALGORITHM_INIT) events ->
   pdata w' = Some 1%positive \/ pdata w' = None).
Proof.
  intros o events w'.
  apply (destination_reached_stays_set probe_set_fields probe_get_field 8 64
           malloc_succeeds events (Some o) (after happy_path o) w' 1%positive
           {| destination_reached := true; ttl := 5; num_sent_probes := 5;
              num_stars := 0; num_undiscovered := 0 |}).
  - vm_compute; reflexivity.
  - vm_compute; reflexivity.
  - reflexivity.
  - vm_compute; reflexivity.
Defined.

End Scenarios.

(** ** The tags of the probes in transit *)

Module NetworkFacts.
Import Network.

Lemma tags_drawn_sublist (l : list probe_t) (n : network_t) :
  l `sublist_of` probes n ->
  tags_drawn n ->
  tags_drawn {| probes := l; last_tag := last_tag n |}.
Proof.
  intros Hsub (Hnd & Hle & Hmax).
  assert (Htags : tag <$> l `sublist_of` tags n) by now apply fmap_sublist.
  split; [| split].
  - exact (sublist_NoDup _ _ Hnd Htags).
  - intros t Ht. apply Hle. exact (elem_of_sublist _ _ _ Ht Htags).
  - exact Hmax.
Qed.

Lemma remove_first_sublist (fp : Z) (l : list probe_t) :
  remove_first fp l `sublist_of` l.
Proof.
  induction l as [| p l IH]; cbn; [constructor |].
  destruct (fingerprint p =? fp).
  - now apply sublist_cons.
  - now apply sublist_skip.
Qed.

Lemma drop_expired_sublist (now : Z) (l : list probe_t) :
  drop_expired now l `sublist_of` l.
Proof.
  induction l as [| p l IH]; cbn; [constructor |].
  destruct (deadline p <=? now).
  - now apply sublist_cons.
  - reflexivity.
Qed.

Lemma available_tag_spec (n : network_t) (t : Z) (n' : network_t) :
  network_get_available_tag n = Some (t, n') ->
  last_tag n < UINTMAX_MAX /\ t = last_tag n + 1 /\
  n' = {| probes := probes n; last_tag := t |}.
Proof.
  unfold network_get_available_tag.
  destruct (Z.ltb_spec (last_tag n) UINTMAX_MAX); [| discriminate].
  intros [= <- <-]. auto.
Qed.

Lemma transmit_spec (timeout now fp : Z) (sent : bool) (n n' : network_t) :
  transmit timeout now fp sent n = Some n' ->
  last_tag n < UINTMAX_MAX /\
  last_tag n' = last_tag n + 1 /\
  probes n' `sublist_of`
    probes n ++ [{| tag := last_tag n + 1; fingerprint := fp;
                    deadline := now + timeout |}].
Proof.
  unfold transmit.
  destruct (network_get_available_tag n) as [[t n1] |] eqn:E; [| discriminate].
  apply available_tag_spec in E as (Hlt & -> & ->). cbn.
  destruct sent; intros [= <-]; cbn; split_and!; auto.
  apply sublist_filter.
Qed.

Lemma transmit_tags_drawn (timeout now fp : Z) (sent : bool)
  (n n' : network_t) :
  tags_drawn n -> transmit timeout now fp sent n = Some n' -> tags_drawn n'.
Proof.
  intros (Hnd & Hle & Hmax) Htr.
  apply transmit_spec in Htr as (Hlt & Htag & Hsub).
  set (p := {| tag := last_tag n + 1; fingerprint := fp;
               deadline := now + timeout |}) in *.
  assert (Hall : tags_drawn {| probes := probes n ++ [p];
                               last_tag := last_tag n' |}).
  { unfold tags_drawn, tags. cbn [probes Network.last_tag].
    rewrite fmap_app, Htag. cbn. split_and!; try lia.
    - apply NoDup_app. split_and!; [exact Hnd | | apply NoDup_singleton].
      intros t Ht Ht'. apply list_elem_of_singleton in Ht'.
      apply Hle in Ht. lia.
    - intros t [Ht | Ht]%elem_of_app.
      + apply Hle in Ht. lia.
      + apply list_elem_of_singleton in Ht. lia. }
  destruct n' as [l' t']. cbn in Hsub, Hall.
  exact (tags_drawn_sublist l' {| probes := probes n ++ [p]; last_tag := t' |}
           Hsub Hall).
Qed.

Lemma reachable_tags_drawn (n : network_t) : reachable n -> tags_drawn n.
Proof.
  induction 1 as [| timeout now fp sent n n' _ IH Htr | fp n _ IH | now n _ IH].
  - unfold tags_drawn. cbn. split_and!; [constructor | | lia | ].
    + intros t Ht. inversion Ht.
    + unfold UINTMAX_MAX. lia.
  - exact (transmit_tags_drawn _ _ _ _ _ _ IH Htr).
  - apply tags_drawn_sublist; [apply remove_first_sublist | exact IH].
  - apply tags_drawn_sublist; [apply drop_expired_sublist | exact IH].
Qed.

(** C9. In every state the engine can reach, no two probes in transit
    share a tag.  A tag is the next value of the counter [last_tag] of
    the network, which fits in 64 bits, only grows, and grows with every
    tag drawn; and a tag that has just been drawn is not the tag of any
    probe in transit. *)
Theorem tags_in_transit_are_unique (n : network_t) :
  reachable n ->
  NoDup (tags n) /\
  0 <= last_tag n <= UINTMAX_MAX /\
  (forall t n',
     network_get_available_tag n = Some (t, n') ->
     (t ∉ tags n) /\ t = last_tag n + 1 /\ last_tag n' = t /\
     t <= UINTMAX_MAX /\ probes n' = probes n) /\
  (forall timeout now fp sent n',
     transmit timeout now fp sent n = Some n' -> last_tag n < last_tag n') /\
  (forall fp, last_tag (match_reply fp n) = last_tag n) /\
  (forall now, last_tag (expire_oldest now n) = last_tag n).
Proof.
  intros Hr. destruct (reachable_tags_drawn n Hr) as (Hnd & Hle & Hmax).
  split_and!; auto; try lia.
  - intros t n' (Hlt & -> & ->)%available_tag_spec. cbn.
    split_and!; auto; try lia.
    intros Hin%Hle. lia.
  - intros timeout now fp sent n' (_ & Htag & _)%transmit_spec. lia.
Qed.

(** The state [busy] leaves: the probe tagged 4 is in transit. *)
Lemma tags_in_transit_are_unique_witness :
  let n := {| probes := [{| tag := 4; fingerprint := 14; deadline := 5 |}];
              last_tag := 4 |} in
  busy = Some n /\
  NoDup (tags n) /\
  0 <= last_tag n <= UINTMAX_MAX /\
  (forall t n',
     network_get_available_tag n = Some (t, n') ->
     (t ∉ tags n) /\ t = last_tag n + 1 /\ last_tag n' = t /\
     t <= UINTMAX_MAX /\ probes n' = probes n) /\
  (forall timeout now fp sent n',
     transmit timeout now fp sent n = Some n' -> last_tag n < last_tag n') /\
  (forall fp, last_tag (match_reply fp n) = last_tag n) /\
  (forall now, last_tag (expire_oldest now n) = last_tag n).
Proof.
  intros n. split; [vm_compute; reflexivity |].
  apply (tags_in_transit_are_unique n).
  apply reachable_expire with (now := 4)
    (n := {| probes := [{| tag := 1; fingerprint := 11; deadline := 3 |};
                        {| tag := 4; fingerprint := 14; deadline := 5 |}];
             last_tag := 4 |}).
  apply reachable_transmit with (timeout := 3) (now := 2) (fp := 14)
    (sent := true)
    (n := {| probes := [{| tag := 1; fingerprint := 11; deadline := 3 |}];
             last_tag := 3 |}); [| vm_compute; reflexivity].
  apply reachable_match with (fp := 12)
    (n := {| probes := [{| tag := 1; fingerprint := 11; deadline := 3 |};
                        {| tag := 2; fingerprint := 12; deadline := 4 |}];
             last_tag := 3 |}).
  apply reachable_transmit with (timeout := 3) (now := 2) (fp := 13)
    (sent := false)
    (n := {| probes := [{| tag := 1; fingerprint := 11; deadline := 3 |};
                        {| tag := 2; fingerprint := 12; deadline := 4 |}];
             last_tag := 2 |}); [| vm_compute; reflexivity].
  apply reachable_transmit with (timeout := 3) (now := 1) (fp := 12)
    (sent := true)
    (n := {| probes := [{| tag := 1; fingerprint := 11; deadline := 3 |}];
             last_tag := 1 |}); [| vm_compute; reflexivity].
  apply reachable_transmit with (timeout := 3) (now := 0) (fp := 11)
    (sent := true) (n := network_create); [| vm_compute; reflexivity].
  apply reachable_create.
Defined.

End NetworkFacts.

(** ** More runs of the handler *)

Module Runs.
Import SimpleProbe.

(** The default options, after [ALGORITHM_INIT] has accepted them. *)
Lemma reply_needs_destination_witness :
  handler (reply_from "10.0.0.1") (Some traceroute_get_default_options)
    (after [init] traceroute_get_default_options)
  = Undefined.
Proof.
  apply (reply_needs_destination probe_set_fields probe_get_field 8 64
           malloc_succeeds).
  - reflexivity.
  - reflexivity.
Defined.

Lemma zero_probes_per_hop_divides_by_zero_witness :
  handler timeout (Some (options 1 5 0 "10.0.0.5"))
    (after [init] (options 1 5 0 "10.0.0.5"))
  = Undefined.
Proof.
  apply (zero_probes_per_hop_divides_by_zero probe_set_fields probe_get_field
           8 64 malloc_succeeds).
  - right; reflexivity.
  - reflexivity.
Defined.

Lemma event_after_terminated_is_undefined_witness :
  let o := options 1 5 1 "10.0.0.5" in
  run [terminated] (Some o) (after four_hops o)
  = Some (set_pdata None (after four_hops o)) /\
  run [terminated; reply_from "10.0.0.4"] (Some o) (after four_hops o) = None.
Proof.
  intros o.
  apply (event_after_terminated_is_undefined probe_set_fields probe_get_field
           8 64 malloc_succeeds terminated (reply_from "10.0.0.4")).
  - reflexivity.
  - left; reflexivity.
Defined.

Lemma unknown_event_is_rejected_witness :
  let o := options 1 5 1 "10.0.0.5" in
  handler (event_create ALGORITHM_ERROR NoData 1%nat) (Some o)
    (after four_hops o)
  = Returns EINVAL (after four_hops o).
Proof.
  intros o.
  apply (unknown_event_is_rejected probe_set_fields probe_get_field 8 64
           malloc_succeeds); simpl; discriminate.
Defined.

Lemma init_out_of_memory_witness :
  exists w',
    traceroute_handler probe_set_fields probe_get_field 8 64 malloc_exhausted
      init (Some (options 1 5 1 "10.0.0.5")) boot
    = Returns EINVAL w' /\
    mem w' = mem boot /\
    pdata w' = pdata boot /\
    loop w' = loop boot /\
    probe_skel w' = probe_skel boot.
Proof.
  apply (init_out_of_memory probe_set_fields probe_get_field 8 64
           malloc_exhausted init (options 1 5 1 "10.0.0.5") boot).
  - reflexivity.
  - simpl; lia.
  - reflexivity.
Defined.

Lemma init_send_failure_leaks_witness :
  exists l w',
    traceroute_handler probe_set_fields_failing probe_get_field 8 64
      malloc_succeeds init (Some (options 1 5 1 "10.0.0.5")) boot
    = Returns EINVAL w' /\
    mem boot !! l = None /\
    mem w' = <[l := set_ttl (wrap 8 1) zero_data]> (mem boot) /\
    pdata w' = pdata boot /\
    loop w' = loop boot /\
    errno w' = errno boot.
Proof.
  apply (init_send_failure_leaks probe_set_fields_failing probe_get_field 8 64
           malloc_succeeds init (options 1 5 1 "10.0.0.5") boot (-1) skeleton).
  - reflexivity.
  - simpl; lia.
  - reflexivity.
  - reflexivity.
  - lia.
Defined.

Lemma send_probe_contract_witness :
  exists ok w',
    send_traceroute_probe probe_set_fields boot 7 = (ok, w') /\
    (ok = true <-> 0 = 0) /\
    probe_skel w' = [I8 "ttl" 7] /\
    sendq (loop w') = sendq (loop boot) ++ (if ok then [[I8 "ttl" 7]] else []) /\
    thrown (loop w') = thrown (loop boot) /\
    mem w' = mem boot /\ pdata w' = pdata boot /\ errno w' = errno boot.
Proof.
  apply (send_probe_contract probe_set_fields boot 7 0 [I8 "ttl" 7]).
  reflexivity.
Defined.

(** The timeout of scenario 2. *)
Lemma call_footprint_witness :
  let o := options 1 5 1 "10.0.0.5" in
  let w := after four_hops o in
  let w' := after (four_hops ++ [timeout]) o in
  (0 = 0 \/ 0 = EINVAL) /\
  cur_instance_caller (loop w') = 0%nat /\
  (type timeout <> ALGORITHM_INIT -> errno w' = errno w) /\
  (exists sent,
     sendq (loop w') = sendq (loop w) ++ sent /\
     (length sent <= 1)%nat /\ (sent <> [] -> 0 = 0)) /\
  (exists more,
     thrown (loop w') = thrown (loop w) ++ more /\
     (length more <= 2)%nat /\
     Forall (fun ie => fst ie = 0%nat /\ target (snd ie) = 0%nat /\
                       data (snd ie) = data timeout) more /\
     (type timeout <> PROBE_REPLY ->
      Forall (fun ie => type (snd ie) = TRACEROUTE_MAX_TTL_REACHED) more)).
Proof.
  intros o w w'.
  apply (call_footprint probe_set_fields probe_get_field 8 64 malloc_succeeds
           timeout (Some o) w 0 w').
  vm_compute; reflexivity.
Defined.

(** Two instances have been initialised one after the other; a reply is
    handled by the second, and the state of the first is block 1. *)
Lemma call_keeps_other_blocks_witness :
  let o := options 1 5 1 "10.0.0.5" in
  let w := after (four_hops ++ [terminated; init]) o in
  let w' := after (four_hops ++ [terminated; init; reply_from "10.0.0.1"]) o in
  is_Some (mem w' !! 1%positive) /\
  (pdata w <> Some 1%positive -> mem w' !! 1%positive = mem w !! 1%positive).
Proof.
  intros o w w'.
  apply (call_keeps_other_blocks probe_set_fields probe_get_field 8 64
           malloc_succeeds (reply_from "10.0.0.1") (Some o) w 0 w' 1%positive).
  - vm_compute; reflexivity.
  - eexists. vm_compute; reflexivity.
Defined.

Lemma failed_send_keeps_updates_witness :
  let o := options 1 5 3 "10.0.0.5" in
  let w := after [init; reply_from "10.0.0.1"; reply_from "10.0.0.1"] o in
  let d := {| destination_reached := false; ttl := 1; num_sent_probes := 3;
              num_stars := 0; num_undiscovered := 0 |} in
  exists ret w' d',
    traceroute_handler probe_set_fields_failing probe_get_field 8 64
      malloc_succeeds timeout (Some o) w = Returns ret w' /\
    mem w' !! 1%positive = Some d' /\
    (stops PROBE_TIMEOUT o d d' = false ->
     ttl d' <= 5 ->
     forall rc skel,
       probe_set_fields_failing (probe_skel w) (I8 "ttl" (to_uint8 (ttl d')))
       = (rc, skel) ->
       rc <> 0 ->
       ret = EINVAL /\
       sendq (loop w') = sendq (loop w) /\
       num_sent_probes d' = 3 /\
       thrown (loop w') = thrown (loop w) ++ forwarded timeout w /\
       ttl d' = (if hop_boundary d o then wrap 8 (1 + 1) else 1) /\
       num_stars d' = wrap 64 (0 + 1)).
Proof.
  intros o w d.
  apply (failed_send_keeps_updates probe_set_fields_failing probe_get_field
           8 64 malloc_succeeds timeout o w 1%positive d).
  - right; reflexivity.
  - vm_compute; reflexivity.
  - vm_compute; reflexivity.
  - simpl; lia.
  - exact I.
Defined.

(** The target has answered the first of three probes; the second times
    out. *)
Lemma timeout_ignores_destination_reached_witness :
  let o := options 1 5 3 "10.0.0.5" in
  let w := after [init; reply_from "10.0.0.5"] o in
  exists ret w' d',
    handler timeout (Some o) w = Returns ret w' /\
    mem w' !! 1%positive = Some d' /\
    destination_reached d' = true /\
    (thrown (loop w') = thrown (loop w) \/
     thrown (loop w') =
       thrown (loop w)
       ++ [(0%nat,
            event_create TRACEROUTE_MAX_TTL_REACHED (data timeout) 0%nat)]).
Proof.
  intros o w.
  apply (timeout_ignores_destination_reached probe_set_fields probe_get_field
           8 64 malloc_succeeds timeout o w 1%positive
           {| destination_reached := true; ttl := 1; num_sent_probes := 2;
              num_stars := 0; num_undiscovered := 0 |}).
  - reflexivity.
  - vm_compute; reflexivity.
  - vm_compute; reflexivity.
  - simpl; lia.
Defined.

(** [max_ttl = 255] with an 8-bit [ttl]. *)
Lemma max_ttl_is_never_reached_witness :
  let o := options 1 255 1 "10.0.0.5" in
  let w := after [init] o in
  let d := {| destination_reached := false; ttl := 1; num_sent_probes := 1;
              num_stars := 0; num_undiscovered := 0 |} in
  exists ret w' d' more,
    handler timeout (Some o) w = Returns ret w' /\
    mem w' !! 1%positive = Some d' /\
    0 <= ttl d' < 2 ^ 8 /\
    (hop_boundary d o = true -> 1 = 2 ^ 8 - 1 ->
     stops PROBE_TIMEOUT o d d' = false -> ttl d' = 0) /\
    thrown (loop w') = thrown (loop w) ++ more /\
    Forall (fun ie => type (snd ie) <> TRACEROUTE_MAX_TTL_REACHED) more.
Proof.
  intros o w d.
  apply (max_ttl_is_never_reached probe_set_fields probe_get_field 8 64
           malloc_succeeds timeout o w 1%positive d).
  - right; reflexivity.
  - vm_compute; reflexivity.
  - vm_compute; reflexivity.
  - simpl; lia.
  - exact I.
  - simpl; lia.
  - simpl; lia.
Defined.

Lemma second_init_leaks_first_state_witness :
  let o := options 1 5 1 "10.0.0.5" in
  let w := after four_hops o in
  let d := {| destination_reached := false; ttl := 5; num_sent_probes := 5;
              num_stars := 0; num_undiscovered := 0 |} in
  exists l' w',
    handler init (Some o) w = Returns 0 w' /\
    pdata w' = Some l' /\
    l' <> 1%positive /\
    mem w' !! 1%positive = Some d /\
    mem w' !! l' = Some (set_num_sent_probes 1 (set_ttl (wrap 8 1) zero_data)).
Proof.
  intros o w d.
  apply (second_init_leaks_first_state probe_set_fields probe_get_field 8 64
           malloc_succeeds init o w 1%positive d [I8 "ttl" 1]).
  - reflexivity.
  - simpl; lia.
  - reflexivity.
  - reflexivity.
  - vm_compute; reflexivity.
  - vm_compute; reflexivity.
Defined.

(** Scenario 3 of the spec: nine timeouts after the last reply. *)
Lemma timeouts_never_stop_on_a_gap_witness :
  let o := options 1 30 3 "10.0.0.5" in
  let w := after (gap 0) o in
  exists w' d',
    run (repeat timeout 9) (Some o) w = Some w' /\
    pdata w' = Some 1%positive /\
    mem w' !! 1%positive = Some d' /\
    num_stars d' = Z.of_nat (length (repeat timeout 9)) /\
    0 <= num_undiscovered d' <= 1.
Proof.
  intros o w.
  apply (timeouts_never_stop_on_a_gap probe_set_fields probe_get_field 8 64
           malloc_succeeds (repeat timeout 9) o w 1%positive
           {| destination_reached := false; ttl := 3; num_sent_probes := 7;
              num_stars := 0; num_undiscovered := 0 |}).
  - repeat constructor.
  - vm_compute; reflexivity.
  - vm_compute; reflexivity.
  - simpl; lia.
  - reflexivity.
  - reflexivity.
  - vm_compute; reflexivity.
Defined.

Lemma num_sent_probes_counts_probes_witness :
  let o := options 1 5 1 "10.0.0.5" in
  let w := after [init; reply_from "10.0.0.1"] o in
  let w' := after [init; reply_from "10.0.0.1"; reply_from "10.0.0.2"; timeout] o in
  exists d' sent,
    pdata w' = Some 1%positive /\
    mem w' !! 1%positive = Some d' /\
    sendq (loop w') = sendq (loop w) ++ sent /\
    num_sent_probes d' = wrap 64 (2 + Z.of_nat (length sent)).
Proof.
  intros o w w'.
  apply (num_sent_probes_counts_probes probe_set_fields probe_get_field 8 64
           malloc_succeeds [reply_from "10.0.0.2"; timeout] o w w' 1%positive
           {| destination_reached := false; ttl := 2; num_sent_probes := 2;
              num_stars := 0; num_undiscovered := 0 |}).
  - constructor; [left; reflexivity |].
    constructor; [right; reflexivity | constructor].
  - vm_compute; reflexivity.
  - vm_compute; reflexivity.
  - simpl; split; [lia | reflexivity].
  - vm_compute; reflexivity.
Defined.

(** Three probes per hop; the first hop answers twice, then two probes
    time out. *)
Lemma hops_are_probed_in_turn_witness :
  let o := options 1 5 3 "10.0.0.5" in
  let w := after [init] o in
  let events := [reply_from "10.0.0.1"; reply_from "10.0.0.1"; timeout; timeout] in
  let sent :=
    sent_with probe_set_fields_total (probe_skel w) (hop_ttls 1 3 4) in
  exists w' d' more,
    deliver probe_set_fields_total probe_get_field 8 64 malloc_succeeds
      events (Some o) w = Some w' /\
    pdata w' = Some 1%positive /\
    mem w' !! 1%positive = Some d' /\
    num_sent_probes d' = 4 + 1 /\
    ttl d' = 1 + 4 / 3 /\
    sendq (loop w') = sendq (loop w) ++ sent /\
    length sent = length events /\
    thrown (loop w') = thrown (loop w) ++ more /\
    Forall (fun ie => type (snd ie) = TRACEROUTE_PROBE_REPLY) more.
Proof.
  intros o w events.
  apply (hops_are_probed_in_turn probe_set_fields_total probe_get_field 8 64
           malloc_succeeds events o w 1%positive
           {| destination_reached := false; ttl := 1; num_sent_probes := 1;
              num_stars := 0; num_undiscovered := 0 |}).
  - intros p t. unfold probe_set_fields_total.
    destruct (replace_field p (I8 "ttl" t)); reflexivity.
  - simpl; lia.
  - repeat (constructor;
            [first [left; reflexivity
                   | right; split;
                     [reflexivity | eexists; split; reflexivity]] |]).
    constructor.
  - vm_compute; reflexivity.
  - vm_compute; reflexivity.
  - reflexivity.
  - reflexivity.
  - reflexivity.
  - reflexivity.
  - simpl; lia.
  - vm_compute; reflexivity.
  - vm_compute; discriminate.
  - vm_compute; reflexivity.
Defined.

End Runs.
